(** * Calendar_App: date search, event index and conflict detection

    A shallow embedding of the logic of [src/App.jsx] (the [Calendar]
    component): [groupEventsByDate], [detectConflicts] and the date
    resolution performed by [handleSearch], together with the parts of the
    JavaScript run time they rely on ([parseInt], [Number],
    [String.prototype.split], the [Date] constructor and [getMonth]). *)

From Stdlib Require Import ZArith Lia List String Ascii Bool.
From stdpp Require Import gmap strings list fin_maps.

Local Open Scope Z_scope.

(** ** JavaScript numbers

    The numbers the program computes with are integers or [NaN].  Integers
    are unbounded here; a double is exact up to 2^53, and beyond that the
    rounding of [parseInt] is monotone (up to [Infinity] for an over-long run
    of digits), so every comparison against the small constants of the
    program has the same result on [Z]. *)
Module JS.

Inductive number := NaN | Num (z : Z).

Definition less (a b : number) : bool :=
  match a, b with
  | Num x, Num y => x <? y
  | _, _ => false
  end.

Definition greater (a b : number) : bool := less b a.

Definition add (a b : number) : number :=
  match a, b with
  | Num x, Num y => Num (x + y)
  | _, _ => NaN
  end.

Definition sub (a b : number) : number :=
  match a, b with
  | Num x, Num y => Num (x - y)
  | _, _ => NaN
  end.

Definition mul (a b : number) : number :=
  match a, b with
  | Num x, Num y => Num (x * y)
  | _, _ => NaN
  end.

(** [a !== b] on numbers: [NaN] differs from everything, itself included. *)
Definition strict_neq (a b : number) : bool :=
  match a, b with
  | Num x, Num y => negb (x =? y)
  | _, _ => true
  end.

Definition isNaN (a : number) : bool :=
  match a with
  | NaN => true
  | Num _ => false
  end.

(** [Math.max] and [Math.min] of two arguments: [NaN] as soon as one is. *)
Definition Math_max (a b : number) : number :=
  match a, b with
  | Num x, Num y => Num (Z.max x y)
  | _, _ => NaN
  end.

Definition Math_min (a b : number) : number :=
  match a, b with
  | Num x, Num y => Num (Z.min x y)
  | _, _ => NaN
  end.

(** ** Strings

    A string is a sequence of code units; the model covers the code units
    below 256. *)

Definition code (c : ascii) : Z := Z.of_nat (nat_of_ascii c).

Definition is_digit (c : ascii) : bool := (48 <=? code c) && (code c <=? 57).

Definition digit_value (c : ascii) : Z := code c - 48.

(** White space and line terminators (TAB, LF, VT, FF, CR, SP, NBSP). *)
Definition is_white_space (c : ascii) : bool :=
  let n := code c in
  ((9 <=? n) && (n <=? 13)) || (n =? 32) || (n =? 160).

(** [s.includes(c)] for a one-character search string. *)
Fixpoint includes (c : ascii) (s : string) : bool :=
  match s with
  | EmptyString => false
  | String x rest => Ascii.eqb x c || includes c rest
  end.

(** [s.split(c)] for a one-character separator: the maximal pieces between
    separators, in order; never empty. *)
Fixpoint split (c : ascii) (s : string) : list string :=
  match s with
  | EmptyString => [EmptyString]
  | String x rest =>
      if Ascii.eqb x c then EmptyString :: split c rest
      else match split c rest with
           | piece :: pieces => String x piece :: pieces
           | [] => [String x EmptyString]
           end
  end.

Fixpoint trim_start (s : string) : string :=
  match s with
  | String x rest => if is_white_space x then trim_start rest else s
  | EmptyString => s
  end.

(** The value of the longest prefix of decimal digits; [None] when the string
    does not start with a digit. *)
Fixpoint digits_prefix (acc : option Z) (s : string) : option Z :=
  match s with
  | String x rest =>
      if is_digit x
      then digits_prefix (Some (10 * default 0 acc + digit_value x)) rest
      else acc
  | EmptyString => acc
  end.

(** A missing array element is [undefined]; [ToString(undefined)] is the
    string "undefined". *)
Definition ToString (v : option string) : string :=
  match v with
  | Some s => s
  | None => "undefined"
  end.

(** [parseInt(v, 10)]: leading white space is skipped, one sign is accepted,
    then the longest run of digits is read and whatever follows is ignored;
    [NaN] when there is no digit at that point. *)
Definition parseInt (v : option string) : number :=
  let s := trim_start (ToString v) in
  let '(sign, s) :=
    match s with
    | String "-" rest => (-1, rest)
    | String "+" rest => (1, rest)
    | _ => (1, s)
    end in
  match digits_prefix None s with
  | Some n => Num (sign * n)
  | None => NaN
  end.

(** [Number(s)] on the strings an [HH:MM] time is made of: white space is
    trimmed on both sides, the empty string is 0, and an optionally signed run
    of decimal digits is its value.  Every other string is [NaN] here: the
    remaining numeric literals of JavaScript (fractions, exponents, radix
    prefixes, [Infinity]) do not occur in event times. *)
Fixpoint all_digits (acc : Z) (s : string) : option Z :=
  match s with
  | String x rest =>
      if is_digit x then all_digits (10 * acc + digit_value x) rest else None
  | EmptyString => Some acc
  end.

Fixpoint trim_end (s : string) : string :=
  match s with
  | String x rest =>
      match trim_end rest with
      | EmptyString => if is_white_space x then EmptyString else String x EmptyString
      | rest' => String x rest'
      end
  | EmptyString => EmptyString
  end.

Definition Number (s : string) : number :=
  match trim_end (trim_start s) with
  | EmptyString => Num 0
  | String "-" (String x rest) =>
      match all_digits 0 (String x rest) with Some n => Num (- n) | None => NaN end
  | String "+" (String x rest) =>
      match all_digits 0 (String x rest) with Some n => Num n | None => NaN end
  | t => match all_digits 0 t with Some n => Num n | None => NaN end
  end.

(** ** Dates

    Day numbers, years and months follow the definitions of ECMAScript
    (21.4.1): a date value is the number of the local day since 1 January
    1970.  The program only builds local midnights and only reads the local
    month and calendar day back, so the time of day and the offset of the
    time zone are left out. *)

Definition DaysInYear (y : Z) : Z :=
  if (y mod 4 =? 0) && (negb (y mod 100 =? 0) || (y mod 400 =? 0))
  then 366 else 365.

Definition leap_day (y : Z) : Z := if DaysInYear y =? 366 then 1 else 0.

Definition DayFromYear (y : Z) : Z :=
  365 * (y - 1970) + (y - 1969) / 4 - (y - 1901) / 100 + (y - 1601) / 400.

(** [YearFromTime]: the largest year that starts on or before the day.  The
    search starts from a year that is not after it and climbs. *)
Fixpoint year_search (fuel : nat) (y day : Z) : Z :=
  match fuel with
  | O => y
  | S fuel' =>
      if DayFromYear (y + 1) <=? day then year_search fuel' (y + 1) day else y
  end.

Definition YearFromDay (day : Z) : Z :=
  let y0 := 1970 + (if 0 <=? day then day / 366 else day / 365) in
  year_search (Z.to_nat (Z.abs day / 100000 + 3)) y0 day.

Definition InLeapYear (day : Z) : Z := leap_day (YearFromDay day).

Definition DayWithinYear (day : Z) : Z := day - DayFromYear (YearFromDay day).

(** [MonthFromTime]: months are numbered from 0. *)
Definition MonthFromDay (day : Z) : Z :=
  let d := DayWithinYear day in
  let leap := InLeapYear day in
  if d <? 31 then 0
  else if d <? 59 + leap then 1
  else if d <? 90 + leap then 2
  else if d <? 120 + leap then 3
  else if d <? 151 + leap then 4
  else if d <? 181 + leap then 5
  else if d <? 212 + leap then 6
  else if d <? 243 + leap then 7
  else if d <? 273 + leap then 8
  else if d <? 304 + leap then 9
  else if d <? 334 + leap then 10
  else 11.

(** The day within the year on which month [m] (from 0) starts. *)
Definition month_start (m leap : Z) : Z :=
  match m with
  | 0 => 0
  | 1 => 31
  | 2 => 59 + leap
  | 3 => 90 + leap
  | 4 => 120 + leap
  | 5 => 151 + leap
  | 6 => 181 + leap
  | 7 => 212 + leap
  | 8 => 243 + leap
  | 9 => 273 + leap
  | 10 => 304 + leap
  | _ => 334 + leap
  end.

(** [DateFromTime]: the day of the month, from 1. *)
Definition DateFromDay (day : Z) : Z :=
  DayWithinYear day - month_start (MonthFromDay day) (InLeapYear day) + 1.

(** [WeekDay]: 0 is Sunday; 1 January 1970 was a Thursday. *)
Definition WeekDay (day : Z) : Z := (day + 4) mod 7.

(** [MakeDay]: months beyond 0..11 carry into the year, and the day of the
    month is an offset from the first of the month, so a day past the end of
    the month lands in a later month. *)
Definition MakeDay (year month date : Z) : Z :=
  let ym := year + month / 12 in
  let mn := month mod 12 in
  DayFromYear ym + month_start mn (leap_day ym) + date - 1.

Inductive Date := Invalid_Date | DateValue (day : Z).

(** [new Date(year, monthIndex, day)]: an invalid date when an argument is
    [NaN]; years 0..99 mean 1900..1999; a day further than 100,000,000 days
    from the epoch is out of range. *)
Definition new_Date (year month date : number) : Date :=
  match year, month, date with
  | Num y, Num m, Num d =>
      let yr := if (0 <=? y) && (y <=? 99) then 1900 + y else y in
      let day := MakeDay yr m d in
      if Z.abs day <=? 100000000 then DateValue day else Invalid_Date
  | _, _, _ => Invalid_Date
  end.

Definition getFullYear (d : Date) : number :=
  match d with
  | DateValue day => Num (YearFromDay day)
  | Invalid_Date => NaN
  end.

Definition getMonth (d : Date) : number :=
  match d with
  | DateValue day => Num (MonthFromDay day)
  | Invalid_Date => NaN
  end.

Definition getDate (d : Date) : number :=
  match d with
  | DateValue day => Num (DateFromDay day)
  | Invalid_Date => NaN
  end.

Definition getDay (d : Date) : number :=
  match d with
  | DateValue day => Num (WeekDay day)
  | Invalid_Date => NaN
  end.

(** [getTime]: milliseconds of local midnight (the zone offset left out). *)
Definition getTime (d : Date) : number :=
  match d with
  | DateValue day => Num (day * 86400000)
  | Invalid_Date => NaN
  end.

End JS.

Import JS.

(** ** The date search of [handleSearch]

    [handleSearch] resolves the text of the search box inside a [try] block
    and reports failures by throwing [Error]s.  [SearchError] lists the
    errors thrown there, [message] their texts. *)

Inductive SearchError :=
| InvalidMonth
| InvalidDay
| InvalidYear
| InvalidDayForMonth
| InvalidFormat
| InvalidDate.

Definition message (e : SearchError) : string :=
  match e with
  | InvalidMonth => "Invalid month"
  | InvalidDay => "Invalid day"
  | InvalidYear => "Invalid year"
  | InvalidDayForMonth => "Invalid date for the given month"
  | InvalidFormat => "Invalid date format"
  | InvalidDate => "Invalid date"
  end.

Inductive Outcome := Resolved (date : Date) | Thrown (e : SearchError).

(** The statements both branches run on their three numbers (lines 91-101
    and 110-120): the range checks in the order month, day, year, then the
    construction of the date and the comparison of its month with the one
    typed. *)
Definition validate (monthNum dayNum yearNum : number) : Outcome :=
  if less monthNum (Num 1) || greater monthNum (Num 12) then Thrown InvalidMonth
  else if less dayNum (Num 1) || greater dayNum (Num 31) then Thrown InvalidDay
  else if less yearNum (Num 1900) || greater yearNum (Num 9999) then Thrown InvalidYear
  else
    let date := new_Date yearNum (sub monthNum (Num 1)) dayNum in
    if strict_neq (getMonth date) (sub monthNum (Num 1))
    then Thrown InvalidDayForMonth
    else Resolved date.

(** The three numbers read from the text, as (month, day, year): the first
    three pieces between slashes when the text has a slash, else the first
    three pieces between hyphens, year first, when it has a hyphen. *)
Definition search_fields (searchDate : string) : option (number * number * number) :=
  if includes "/" searchDate then
    let parts := split "/" searchDate in
    let month := parts !! 0%nat in
    let day := parts !! 1%nat in
    let year := parts !! 2%nat in
    let monthNum := parseInt month in
    let dayNum := parseInt day in
    let yearNum := parseInt year in
    Some (monthNum, dayNum, yearNum)
  else if includes "-" searchDate then
    let parts := split "-" searchDate in
    let year := parts !! 0%nat in
    let month := parts !! 1%nat in
    let day := parts !! 2%nat in
    let yearNum := parseInt year in
    let monthNum := parseInt month in
    let dayNum := parseInt day in
    Some (monthNum, dayNum, yearNum)
  else None.

(** The resolution of the search text: lines 83-127 of [handleSearch]. *)
Definition parseSearchInput (searchDate : string) : Outcome :=
  let branch :=
    match search_fields searchDate with
    | Some (monthNum, dayNum, yearNum) => validate monthNum dayNum yearNum
    | None => Thrown InvalidFormat
    end in
  match branch with
  | Resolved date =>
      if isNaN (getTime date) then Thrown InvalidDate else Resolved date
  | Thrown e => Thrown e
  end.

(** ** Events *)

Record Event := {
  id : Z;
  date : string;
  startTime : string;
  endTime : string;
  durationMinutes : Z;
  title : string;
  color : string
}.

(** An element of the array [detectConflicts] returns: the properties of the
    event, spread into a new object, and [conflict]. *)
Record AnnotatedEvent := {
  event : Event;
  conflict : bool
}.

(** ** [detectConflicts] *)

(** A missing array element read as a number: [undefined] is [NaN]. *)
Definition ToNumber (v : option number) : number :=
  match v with
  | Some x => x
  | None => NaN
  end.

Definition toMinutes (t : string) : number :=
  let parts := map Number (split ":" t) in
  let h := ToNumber (parts !! 0%nat) in
  let m := ToNumber (parts !! 1%nat) in
  add (mul h (Num 60)) m.

(** [results[i].conflict = true]. *)
Definition set_conflict (i : nat) (results : list AnnotatedEvent) : list AnnotatedEvent :=
  alter (fun r => {| event := event r; conflict := true |}) i results.

(** [for (let k = from; k < to; k++) body]: the bound of both loops is
    [results.length], which no iteration changes. *)
Definition for_range {S : Type} (from to : nat) (body : S -> nat -> S) (s : S) : S :=
  fold_left body (seq from (to - from)) s.

(** The body of the inner loop (lines 58-64). *)
Definition inner_body (i : nat) (aStart aEnd : number)
    (results : list AnnotatedEvent) (j : nat) : list AnnotatedEvent :=
  match results !! j with
  | Some rj =>
      let bStart := toMinutes (startTime (event rj)) in
      let bEnd := add bStart (Num (durationMinutes (event rj))) in
      let overlap :=
        Math_max (Num 0) (sub (Math_min aEnd bEnd) (Math_max aStart bStart)) in
      if greater overlap (Num 0)
      then set_conflict j (set_conflict i results)
      else results
  | None => results
  end.

(** The body of the outer loop (lines 55-65). *)
Definition outer_body (results : list AnnotatedEvent) (i : nat) : list AnnotatedEvent :=
  match results !! i with
  | Some ri =>
      let aStart := toMinutes (startTime (event ri)) in
      let aEnd := add aStart (Num (durationMinutes (event ri))) in
      for_range (i + 1) (length results) (inner_body i aStart aEnd) results
  | None => results
  end.

Definition detectConflicts (eventsForDay : list Event) : list AnnotatedEvent :=
  let results := map (fun e => {| event := e; conflict := false |}) eventsForDay in
  for_range 0 (length results) outer_body results.

(** The overlap of two events in the words of the specification:
    [max(0, min(endA, endB) - max(startA, startB))] with
    [end = start + durationMinutes]. *)
Definition start_of (e : Event) : number := toMinutes (startTime e).

Definition end_of (e : Event) : number := add (start_of e) (Num (durationMinutes e)).

Definition overlap (a b : Event) : number :=
  Math_max (Num 0)
    (sub (Math_min (end_of a) (end_of b)) (Math_max (start_of a) (start_of b))).

Definition overlaps (a b : Event) : bool := greater (overlap a b) (Num 0).

(** ** [groupEventsByDate]

    The index is a plain object used as a map from date strings to arrays.
    A plain object also answers for the names it inherits from
    [Object.prototype], with values that are objects or functions, never
    arrays. *)

Definition Object_prototype_names : list string :=
  ["constructor"; "__defineGetter__"; "__defineSetter__"; "hasOwnProperty";
   "__lookupGetter__"; "__lookupSetter__"; "isPrototypeOf";
   "propertyIsEnumerable"; "toString"; "valueOf"; "__proto__";
   "toLocaleString"].

Definition inherited (key : string) : bool :=
  existsb (String.eqb key) Object_prototype_names.

(** What [map[key]] evaluates to. *)
Inductive Property :=
| Own (events : list Event)
| Inherited
| Undefined.

Definition get (map : gmap string (list Event)) (key : string) : Property :=
  match map !! key with
  | Some events => Own events
  | None => if inherited key then Inherited else Undefined
  end.

(** Arrays, objects and functions are truthy, [undefined] is not. *)
Definition truthy (p : Property) : bool :=
  match p with
  | Undefined => false
  | _ => true
  end.

(** The callback of [events.forEach] (lines 38-40).  [None] is the
    [TypeError] of calling [push] on a value that has none. *)
Definition group_event (map : gmap string (list Event)) (e : Event)
    : option (gmap string (list Event)) :=
  let dateKey := date e in
  let map := if negb (truthy (get map dateKey)) then <[dateKey := []]> map else map in
  match get map dateKey with
  | Own events => Some (<[dateKey := events ++ [e]]> map)
  | _ => None
  end.

Fixpoint forEach {S A : Type} (f : S -> A -> option S) (l : list A) (s : S) : option S :=
  match l with
  | [] => Some s
  | x :: l' =>
      match f s x with
      | Some s' => forEach f l' s'
      | None => None
      end
  end.

Definition groupEventsByDate (events : list Event) : option (gmap string (list Event)) :=
  forEach group_event events ∅.

(** [eventsByDate[iso] || []] (lines 133 and 213). *)
Definition lookup_events (eventsByDate : gmap string (list Event)) (iso : string)
    : Property :=
  let p := get eventsByDate iso in
  if truthy p then p else Own [].

(** ** Formatting ([date-fns] [format])

    Decimal digits of a natural number, most significant first. *)
Definition digit_char (d : Z) : ascii := ascii_of_nat (Z.to_nat (48 + d)).

Fixpoint decimal_digits (fuel : nat) (n : Z) : string :=
  match fuel with
  | O => ""
  | S fuel' =>
      ((if n <? 10 then "" else decimal_digits fuel' (n / 10))
       +:+ String (digit_char (n mod 10)) "")
  end.

Definition decimal (n : Z) : string :=
  decimal_digits (S (Z.to_nat (Z.log2 n))) n.

Fixpoint zeros (k : nat) : string :=
  match k with
  | O => ""
  | S k' => String "0" (zeros k')
  end.

(** [addLeadingZeros(n, width)]: the sign, then the digits of the absolute
    value padded with zeros to the width. *)
Definition addLeadingZeros (n : Z) (width : nat) : string :=
  let sign := if n <? 0 then "-" else "" in
  let digits := decimal (Z.abs n) in
  sign +:+ zeros (width - String.length digits) +:+ digits.

(** [format(d, 'yyyy-MM-dd')] on a valid date: the date key.  Years before
    year 1 are counted backwards from it, as [date-fns] does. *)
Definition toKey_day (day : Z) : string :=
  let signedYear := YearFromDay day in
  let year := if 0 <? signedYear then signedYear else 1 - signedYear in
  (addLeadingZeros year 4 +:+ "-" +:+ addLeadingZeros (MonthFromDay day + 1) 2
   +:+ "-" +:+ addLeadingZeros (DateFromDay day) 2).

Definition toKey (d : Date) : option string :=
  match d with
  | DateValue day => Some (toKey_day day)
  | Invalid_Date => None
  end.

Definition weekday_name (w : Z) : string :=
  match w with
  | 0 => "Sunday" | 1 => "Monday" | 2 => "Tuesday" | 3 => "Wednesday"
  | 4 => "Thursday" | 5 => "Friday" | _ => "Saturday"
  end.

Definition month_name (m : Z) : string :=
  match m with
  | 0 => "January" | 1 => "February" | 2 => "March" | 3 => "April"
  | 4 => "May" | 5 => "June" | 6 => "July" | 7 => "August"
  | 8 => "September" | 9 => "October" | 10 => "November" | _ => "December"
  end.

(** [format(d, 'EEEE, MMMM d, yyyy')] on a valid date. *)
Definition long_form (day : Z) : string :=
  let signedYear := YearFromDay day in
  let year := if 0 <? signedYear then signedYear else 1 - signedYear in
  (weekday_name (WeekDay day) +:+ ", " +:+ month_name (MonthFromDay day) +:+ " "
   +:+ decimal (DateFromDay day) +:+ ", " +:+ addLeadingZeros year 4).

(** The two renderings of a calendar date that the search box documents:
    [MM/DD/YYYY] and [YYYY-MM-DD]. *)
Definition render_MM_DD_YYYY (m d y : N) : string :=
  addLeadingZeros (Z.of_N m) 2 +:+ "/" +:+ addLeadingZeros (Z.of_N d) 2
  +:+ "/" +:+ addLeadingZeros (Z.of_N y) 4.

Definition render_YYYY_MM_DD (m d y : N) : string :=
  addLeadingZeros (Z.of_N y) 4 +:+ "-" +:+ addLeadingZeros (Z.of_N m) 2
  +:+ "-" +:+ addLeadingZeros (Z.of_N d) 2.

(** ** [detectConflicts] on the store

    In the program events are objects, and arrays hold references to them: the
    array passed to [detectConflicts] shares its elements with the index.
    The store maps references to objects and arrays; a computation threads
    the store and may throw ([None] is the [TypeError] of reading a property
    of [undefined], or of treating a value as an array or an object when it
    is not). *)
Module Store.

Definition loc := nat.

(** An event object: its event properties and [conflict], when it has one. *)
Record Object := {
  properties : Event;
  conflict_property : option bool
}.

Inductive Cell :=
| ObjectCell (o : Object)
| ArrayCell (elements : list loc).

Definition M (A : Type) : Type :=
  gmap loc Cell -> option (A * gmap loc Cell).

Definition ret {A : Type} (a : A) : M A := fun st => Some (a, st).

Definition bind {A B : Type} (m : M A) (k : A -> M B) : M B :=
  fun st =>
    match m st with
    | Some (a, st') => k a st'
    | None => None
    end.

Notation "'let*' x ':=' m 'in' k" := (bind m (fun x => k))
  (at level 10, x name, m at level 100, k at level 200).

Definition throw {A : Type} : M A := fun _ => None.

(** A new object or array gets a reference that is not in use. *)
Definition alloc (c : Cell) : M loc :=
  fun st => let l := fresh (dom st) in Some (l, <[l := c]> st).

Definition read_object (l : loc) : M Object :=
  fun st =>
    match st !! l with
    | Some (ObjectCell o) => Some (o, st)
    | _ => None
    end.

Definition read_array (l : loc) : M (list loc) :=
  fun st =>
    match st !! l with
    | Some (ArrayCell elements) => Some (elements, st)
    | _ => None
    end.

(** [array[i]], about to be dereferenced. *)
Definition element (elements : list loc) (i : nat) : M loc :=
  match elements !! i with
  | Some l => ret l
  | None => throw
  end.

(** [o.conflict = true]. *)
Definition write_conflict (l : loc) : M unit :=
  fun st =>
    match st !! l with
    | Some (ObjectCell o) =>
        Some (tt, <[l := ObjectCell {| properties := properties o;
                                       conflict_property := Some true |}]> st)
    | _ => None
    end.

(** [elements.map(e => ({ ...e, conflict: false }))]: one new object per
    element, in order. *)
Fixpoint map_spread (elements : list loc) : M (list loc) :=
  match elements with
  | [] => ret []
  | l :: rest =>
      let* o := read_object l in
      let* copy := alloc (ObjectCell {| properties := properties o;
                                        conflict_property := Some false |}) in
      let* copies := map_spread rest in
      ret (copy :: copies)
  end.

Fixpoint for_each (positions : list nat) (body : nat -> M unit) : M unit :=
  match positions with
  | [] => ret tt
  | k :: rest => let* _ := body k in for_each rest body
  end.

Definition for_range (from to : nat) (body : nat -> M unit) : M unit :=
  for_each (seq from (to - from)) body.

Definition length_of (array : loc) : M nat :=
  let* elements := read_array array in ret (length elements).

(** The reference held by [array[i]], and the object it refers to. *)
Definition ref_at (array : loc) (i : nat) : M loc :=
  let* elements := read_array array in
  element elements i.

Definition object_at (array : loc) (i : nat) : M Object :=
  let* l := ref_at array i in
  read_object l.

Definition inner_body (results : loc) (i : nat) (aStart aEnd : number) (j : nat)
    : M unit :=
  let* rj := object_at results j in
  let bStart := toMinutes (startTime (properties rj)) in
  let bEnd := add bStart (Num (durationMinutes (properties rj))) in
  let overlap :=
    Math_max (Num 0) (sub (Math_min aEnd bEnd) (Math_max aStart bStart)) in
  if greater overlap (Num 0) then
    let* li := ref_at results i in
    let* _ := write_conflict li in
    let* lj := ref_at results j in
    write_conflict lj
  else ret tt.

Definition outer_body (results : loc) (i : nat) : M unit :=
  let* ri := object_at results i in
  let aStart := toMinutes (startTime (properties ri)) in
  let aEnd := add aStart (Num (durationMinutes (properties ri))) in
  let* n := length_of results in
  for_range (i + 1) n (inner_body results i aStart aEnd).

Definition detectConflicts (eventsForDay : loc) : M loc :=
  let* elements := read_array eventsForDay in
  let* copies := map_spread elements in
  let* results := alloc (ArrayCell copies) in
  let* n := length_of results in
  let* _ := for_range 0 n (outer_body results) in
  ret results.

(** The object that stands for an element of the result. *)
Definition object_of (a : AnnotatedEvent) : Object :=
  {| properties := event a; conflict_property := Some (conflict a) |}.

(** [st'] extends [st] with the array [results] of the new objects
    [copies], which hold the annotated events [annotated]; nothing of [st]
    is changed. *)
Record represents (st st' : gmap loc Cell) (results : loc)
    (copies : list loc) (annotated : list AnnotatedEvent) : Prop := {
  rep_frame : forall l c, st !! l = Some c -> st' !! l = Some c;
  rep_array : st' !! results = Some (ArrayCell copies);
  rep_array_new : st !! results = None;
  rep_distinct : NoDup copies;
  rep_array_apart : ~ In results copies;
  rep_objects :
    Forall2 (fun l a => st !! l = None /\
                        st' !! l = Some (ObjectCell (object_of a)))
      copies annotated
}.

End Store.

(** ** Auxiliary definitions for the proofs about [detectConflicts] *)

(** The overlap test on positions of the input list. *)
Definition overlaps_at (evs : list Event) (i j : nat) : bool :=
  match evs !! i, evs !! j with
  | Some a, Some b => overlaps a b
  | _, _ => false
  end.

(** The invariant of both loops: [results] still carries the input events in
    order, and an element is flagged exactly when it belongs to an
    overlapping pair among the pairs [P] compared so far. *)
Definition flags_for (evs : list Event) (P : nat -> nat -> Prop)
    (results : list AnnotatedEvent) : Prop :=
  map event results = evs /\
  forall k r, results !! k = Some r ->
    (conflict r = true <->
     exists i j, P i j /\ overlaps_at evs i j = true /\ (k = i \/ k = j)).

(** ** Auxiliary definitions for the statements about strings *)

Fixpoint digits_only (s : string) : bool :=
  match s with
  | String x rest => is_digit x && digits_only rest
  | EmptyString => true
  end.

Fixpoint white_space_only (s : string) : bool :=
  match s with
  | String x rest => is_white_space x && white_space_only rest
  | EmptyString => true
  end.

(** Whether the string is empty or starts with something else than a digit. *)
Definition no_leading_digit (s : string) : bool :=
  match s with
  | String x _ => negb (is_digit x)
  | EmptyString => true
  end.

(** [text] is read by [parseInt] as the digits [digits]: optional white space,
    the digits, then anything that does not continue them. *)
Inductive reads_as (digits : string) : string -> Prop :=
| reads_as_padded (ws rest : string) :
    white_space_only ws = true ->
    digits_only digits = true -> digits <> "" ->
    no_leading_digit rest = true ->
    reads_as digits (ws +:+ digits +:+ rest).

(** The two literal shapes of the search box, character by character. *)
Definition shape_MM_DD_YYYY (s : string) : bool :=
  match list_ascii_of_string s with
  | [m1; m2; s1; d1; d2; s2; y1; y2; y3; y4] =>
      forallb is_digit [m1; m2; d1; d2; y1; y2; y3; y4]
      && Ascii.eqb s1 "/" && Ascii.eqb s2 "/"
  | _ => false
  end.

Definition shape_YYYY_MM_DD (s : string) : bool :=
  match list_ascii_of_string s with
  | [y1; y2; y3; y4; s1; m1; m2; s2; d1; d2] =>
      forallb is_digit [y1; y2; y3; y4; m1; m2; d1; d2]
      && Ascii.eqb s1 "-" && Ascii.eqb s2 "-"
  | _ => false
  end.

(** The events of a list that carry a given date key, in the order of the
    list. *)
Definition events_on (key : string) (events : list Event) : list Event :=
  List.filter (fun e => String.eqb (date e) key) events.

(** ** [handleSearch]

    The state of the [Calendar] component that the search handler reads and
    sets. *)
Record CalendarState := {
  currentMonth : Date;
  selectedDate : option Date;
  selectedEvents : Property;
  searchDate : string;
  searchResult : option string
}.

(** The text shown for a caught error (lines 138-142). *)
Definition caught_message (text : string) : string :=
  if String.prefix "Invalid" text then text
  else "Invalid date format. Please use MM/DD/YYYY or YYYY-MM-DD".

(** The handler: on a resolved date the month shown, the selection, the
    events of the day and the long form of the date are set; on an error only
    the text of the result.  [format] throws a [RangeError] on an invalid
    date, after the first two setters have run. *)
Definition handleSearch (eventsByDate : gmap string (list Event))
    (st : CalendarState) : CalendarState :=
  match parseSearchInput (searchDate st) with
  | Resolved (DateValue day) =>
      {| currentMonth := DateValue day;
         selectedDate := Some (DateValue day);
         selectedEvents := lookup_events eventsByDate (toKey_day day);
         searchDate := searchDate st;
         searchResult := Some (long_form day) |}
  | Resolved Invalid_Date =>
      {| currentMonth := Invalid_Date;
         selectedDate := Some Invalid_Date;
         selectedEvents := selectedEvents st;
         searchDate := searchDate st;
         searchResult := Some (caught_message "Invalid time value") |}
  | Thrown e =>
      {| currentMonth := currentMonth st;
         selectedDate := selectedDate st;
         selectedEvents := selectedEvents st;
         searchDate := searchDate st;
         searchResult := Some (caught_message (message e)) |}
  end.

(** The component showing June 2025 with [text] typed in the search box and
    nothing selected. *)
Definition typing (text : string) : CalendarState :=
  {| currentMonth := DateValue 20254;
     selectedDate := None;
     selectedEvents := Own [];
     searchDate := text;
     searchResult := None |}.

(** ** Sample data

    The events of the example of the specification: 09:00 for 60 minutes,
    09:30 for 30 minutes and 10:30 for 30 minutes, all on 15 June 2025. *)
Definition sample_event (i : Z) (day start finish : string) (minutes : Z) : Event :=
  {| id := i; date := day; startTime := start; endTime := finish;
     durationMinutes := minutes; title := "event"; color := "#2563eb" |}.

Definition standup : Event := sample_event 1 "2025-06-15" "09:00" "10:00" 60.
Definition review : Event := sample_event 2 "2025-06-15" "09:30" "10:00" 30.
Definition lunch : Event := sample_event 3 "2025-06-15" "10:30" "11:00" 30.
Definition retro : Event := sample_event 4 "2025-06-16" "10:00" "10:30" 30.
Definition marker : Event := sample_event 5 "2025-06-15" "09:15" "09:15" 0.

(** A store with the array [[standup; review]] at reference 2. *)
Definition sample_store : gmap Store.loc Store.Cell :=
  <[2%nat := Store.ArrayCell [0%nat; 1%nat]]>
    (<[1%nat := Store.ObjectCell
                  {| Store.properties := review; Store.conflict_property := None |}]>
       (<[0%nat := Store.ObjectCell
                     {| Store.properties := standup; Store.conflict_property := None |}]> ∅)).

(** The length of month [m] (from 1) of year [y] in the Gregorian calendar:
    what a day of the month has to stay within. *)
Definition days_in_month (y m : Z) : Z :=
  if m =? 2 then 28 + leap_day y
  else if (m =? 4) || (m =? 6) || (m =? 9) || (m =? 11) then 30
  else 31.

(** ** Local times and [date-fns]

    The grid and the navigation of the component work on dates with a time
    of day.  A local time value is a number of milliseconds since local
    midnight of 1 January 1970; [Day] and [TimeWithinDay] split it as
    ECMAScript does, and the setters of [Date] rebuild it from a day number
    and a time of day.  The changes of the zone offset within a year are
    left out, as for [new Date]. *)
Module DateFns.

Definition msPerDay : Z := 86400000.

Definition Day (t : Z) : Z := t / msPerDay.

Definition TimeWithinDay (t : Z) : Z := t mod msPerDay.

Definition MakeTime (hour min sec ms : Z) : Z :=
  hour * 3600000 + min * 60000 + sec * 1000 + ms.

Definition MakeDate (day time : Z) : Z := day * msPerDay + time.

Definition getFullYear (t : Z) : Z := YearFromDay (Day t).
Definition getMonth (t : Z) : Z := MonthFromDay (Day t).
Definition getDate (t : Z) : Z := DateFromDay (Day t).
Definition getDay (t : Z) : Z := WeekDay (Day t).

(** [setDate(date)], [setMonth(month, date)], [setFullYear(year, month,
    date)] and [setHours(hour, min, sec, ms)] of [Date.prototype]. *)
Definition setDate (t date : Z) : Z :=
  MakeDate (MakeDay (getFullYear t) (getMonth t) date) (TimeWithinDay t).

Definition setMonth (t month date : Z) : Z :=
  MakeDate (MakeDay (getFullYear t) month date) (TimeWithinDay t).

Definition setFullYear (t year month date : Z) : Z :=
  MakeDate (MakeDay year month date) (TimeWithinDay t).

Definition setHours (t hour min sec ms : Z) : Z :=
  MakeDate (Day t) (MakeTime hour min sec ms).

(** The functions of [date-fns] the component imports. *)
Definition startOfMonth (date : Z) : Z :=
  setHours (setDate date 1) 0 0 0 0.

Definition endOfMonth (date : Z) : Z :=
  let month := getMonth date in
  setHours (setFullYear date (getFullYear date) (month + 1) 0) 23 59 59 999.

Definition startOfWeek (weekStartsOn : Z) (date : Z) : Z :=
  let day := getDay date in
  let diff := (if day <? weekStartsOn then 7 else 0) + day - weekStartsOn in
  setHours (setDate date (getDate date - diff)) 0 0 0 0.

Definition endOfWeek (weekStartsOn : Z) (date : Z) : Z :=
  let day := getDay date in
  let diff := (if day <? weekStartsOn then -7 else 0) + 6 - (day - weekStartsOn) in
  setHours (setDate date (getDate date + diff)) 23 59 59 999.

Definition startOfDay (date : Z) : Z := setHours date 0 0 0 0.

Definition addDays (date amount : Z) : Z :=
  if amount =? 0 then date
  else setDate date (getDate date + amount).

(** [addMonths]: the day of the month is kept when the month aimed at has
    it, and is the last day of that month otherwise. *)
Definition addMonths (date amount : Z) : Z :=
  if amount =? 0 then date
  else
    let dayOfMonth := getDate date in
    let endOfDesiredMonth := setMonth date (getMonth date + amount + 1) 0 in
    let daysInMonth := getDate endOfDesiredMonth in
    if dayOfMonth >=? daysInMonth then endOfDesiredMonth
    else setFullYear date (getFullYear endOfDesiredMonth)
           (getMonth endOfDesiredMonth) dayOfMonth.

Definition subMonths (date amount : Z) : Z := addMonths date (- amount).

Definition isSameMonth (a b : Z) : bool :=
  (getFullYear a =? getFullYear b) && (getMonth a =? getMonth b).

Definition isSameDay (a b : Z) : bool := startOfDay a =? startOfDay b.

End DateFns.

(** ** The month grid (lines 146-162)

    The inner [for] loop: seven days pushed onto [days], the day advanced by
    [addDays] each time. *)
Fixpoint week_days (n : nat) (days : list Z) (day : Z) : list Z * Z :=
  match n with
  | O => (days, day)
  | S n' => week_days n' (days ++ [day]) (DateFns.addDays day 1)
  end.

(** The [while] loop: one row of seven days per turn, as long as the day
    reached is not after [endDate]. *)
Fixpoint grid_rows (fuel : nat) (rows : list (list Z)) (day endDate : Z)
    : list (list Z) :=
  match fuel with
  | O => rows
  | S fuel' =>
      if day <=? endDate then
        let '(days, day') := week_days 7 [] day in
        grid_rows fuel' (rows ++ [days]) day' endDate
      else rows
  end.

(** The rows of the grid for the month shown. *)
Definition calendar_rows (fuel : nat) (currentMonth : Z) : list (list Z) :=
  let monthStart := DateFns.startOfMonth currentMonth in
  let monthEnd := DateFns.endOfMonth monthStart in
  let startDate := DateFns.startOfWeek 1 monthStart in
  let endDate := DateFns.endOfWeek 1 monthEnd in
  grid_rows fuel [] startDate endDate.

(** [prevMonth] and [nextMonth] (lines 164-169), as the new value of
    [currentMonth]. *)
Definition prevMonth (currentMonth : Z) : Z := DateFns.subMonths currentMonth 1.

Definition nextMonth (currentMonth : Z) : Z := DateFns.addMonths currentMonth 1.

(** ** The cells of the grid (lines 211-247)

    The annotated events of the day of a cell: [None] is the [TypeError] of
    calling [map] on a value that is not an array. *)
Definition cell_events (eventsByDate : gmap string (list Event)) (d : Z)
    : option (list AnnotatedEvent) :=
  let iso := toKey_day (DateFns.Day d) in
  match lookup_events eventsByDate iso with
  | Own dayEvents => Some (detectConflicts dayEvents)
  | _ => None
  end.

(** The events listed in the cell, [slice(0, 3)], and the number behind
    "+n more", shown when there are more than three. *)
Definition cell_listed (eventsWithConflicts : list AnnotatedEvent) : list AnnotatedEvent :=
  take 3 eventsWithConflicts.

Definition cell_more (eventsWithConflicts : list AnnotatedEvent) : option nat :=
  if (3 <? length eventsWithConflicts)%nat
  then Some (length eventsWithConflicts - 3)%nat
  else None.

(** A grid of [weeks] rows of seven days each, the days following each other
    from [startDate] on: what the loops of the grid are shown to build. *)
Definition grid_of (startDate : Z) (weeks : nat) : list (list Z) :=
  map (fun i =>
         map (fun j => DateFns.addDays startDate (7 * Z.of_nat i + Z.of_nat j))
             (seq 0 7))
      (seq 0 weeks).

(** No key of an index under construction is an inherited name. *)
Definition own_keys_plain (map : gmap string (list Event)) : Prop :=
  forall key, inherited key = true -> map !! key = None.

(** An event of the list overlaps the event at another position of it. *)
Definition overlapped_in (evs : list Event) (e : Event) : Prop :=
  exists k j b,
    k <> j /\ evs !! k = Some e /\ evs !! j = Some b /\ overlaps e b = true.

(** * Properties *)

(** ** The calendar of the [Date] model *)
Module DateFacts.

Lemma DaysInYear_cases y : DaysInYear y = 365 \/ DaysInYear y = 366.
Proof. unfold DaysInYear. destruct (_ && _); auto. Qed.

(** A year is followed by the next one after its own number of days. *)
Lemma DayFromYear_succ y : DayFromYear (y + 1) = DayFromYear y + DaysInYear y.
Proof.
  unfold DayFromYear, DaysInYear.
  replace (y + 1 - 1969) with (y - 1969 + 1) by lia.
  replace (y + 1 - 1901) with (y - 1901 + 1) by lia.
  replace (y + 1 - 1601) with (y - 1601 + 1) by lia.
  destruct (y mod 4 =? 0) eqn:E4; destruct (y mod 100 =? 0) eqn:E100;
    destruct (y mod 400 =? 0) eqn:E400; simpl;
    rewrite ?Z.eqb_eq, ?Z.eqb_neq in *;
    Z.to_euclidean_division_equations; lia.
Qed.

(** Between two years lie at least 365 and at most 366 days per year. *)
Lemma DayFromYear_span y n :
  0 <= n ->
  365 * n <= DayFromYear (y + n) - DayFromYear y <= 366 * n.
Proof.
  intros Hn. revert n Hn. apply natlike_ind.
  - rewrite Z.add_0_r. lia.
  - intros n Hn IH.
    replace (y + Z.succ n) with (y + n + 1) by lia.
    rewrite DayFromYear_succ.
    destruct (DaysInYear_cases (y + n)); lia.
Qed.

Lemma DayFromYear_mono y1 y2 : y1 <= y2 -> DayFromYear y1 <= DayFromYear y2.
Proof.
  intros H. pose proof (DayFromYear_span y1 (y2 - y1)) as S.
  replace (y1 + (y2 - y1)) with y2 in S by lia. lia.
Qed.

Lemma DayFromYear_lt_inv y1 y2 : DayFromYear y1 < DayFromYear y2 -> y1 < y2.
Proof.
  intros H. destruct (Z_lt_le_dec y1 y2) as [|Hle]; [assumption|].
  apply DayFromYear_mono in Hle. lia.
Qed.

Lemma DayFromYear_1970 : DayFromYear 1970 = 0.
Proof. reflexivity. Qed.

(** The search climbs to the year of the day when it starts at or below it
    with enough fuel. *)
Lemma year_search_spec fuel y0 y day :
  DayFromYear y <= day < DayFromYear (y + 1) ->
  y0 <= y -> y - y0 < Z.of_nat fuel ->
  year_search fuel y0 day = y.
Proof.
  intros Hy. revert y0. induction fuel as [|fuel IH]; intros y0 Hle Hfuel.
  - lia.
  - simpl. destruct (DayFromYear (y0 + 1) <=? day) eqn:E.
    + apply Z.leb_le in E.
      assert (y0 + 1 < y + 1) by (apply DayFromYear_lt_inv; lia).
      apply IH; lia.
    + apply Z.leb_gt in E.
      assert (y < y0 + 1) by (apply DayFromYear_lt_inv; lia).
      lia.
Qed.

(** [YearFromDay] is the year whose days include the day. *)
Lemma YearFromDay_spec y day :
  DayFromYear y <= day < DayFromYear (y + 1) -> YearFromDay day = y.
Proof.
  intros Hy. unfold YearFromDay.
  pose proof DayFromYear_1970 as E0.
  destruct (0 <=? day) eqn:Hs.
  - apply Z.leb_le in Hs.
    assert (Hlo : 1970 <= y).
    { assert (1970 < y + 1) by (apply DayFromYear_lt_inv; lia). lia. }
    pose proof (DayFromYear_span 1970 (y - 1970) ltac:(lia)) as S1.
    replace (1970 + (y - 1970)) with y in S1 by lia.
    pose proof (DayFromYear_span 1970 (day / 366) ltac:(apply Z.div_pos; lia)) as S0.
    apply year_search_spec; [assumption| |].
    + assert (1970 + day / 366 < y + 1); [|lia].
      apply DayFromYear_lt_inv.
      pose proof (Z.mul_div_le day 366 ltac:(lia)). lia.
    + rewrite Z2Nat.id by (pose proof (Z.div_pos (Z.abs day) 100000); lia).
      rewrite Z.abs_eq by lia.
      Z.to_euclidean_division_equations; lia.
  - apply Z.leb_gt in Hs.
    assert (Hhi : y < 1970) by (apply DayFromYear_lt_inv; lia).
    pose proof (DayFromYear_span y (1970 - y) ltac:(lia)) as S1.
    replace (y + (1970 - y)) with 1970 in S1 by lia.
    assert (Hq : day / 365 < 0) by (apply Z.div_lt_upper_bound; lia).
    pose proof (DayFromYear_span (1970 + day / 365) (- (day / 365)) ltac:(lia)) as S0.
    replace (1970 + day / 365 + - (day / 365)) with 1970 in S0 by lia.
    apply year_search_spec; [assumption| |].
    + assert (1970 + day / 365 < y + 1); [|lia].
      apply DayFromYear_lt_inv.
      pose proof (Z.mul_div_le day 365 ltac:(lia)). lia.
    + rewrite Z2Nat.id by (pose proof (Z.div_pos (Z.abs day) 100000); lia).
      rewrite Z.abs_neq by lia.
      Z.to_euclidean_division_equations; lia.
Qed.

Lemma leap_day_cases y : leap_day y = 0 \/ leap_day y = 1.
Proof. unfold leap_day. destruct (_ =? _); auto. Qed.

Lemma DaysInYear_leap_day y : DaysInYear y = 365 + leap_day y.
Proof. unfold leap_day. destruct (DaysInYear_cases y) as [E|E]; rewrite E; reflexivity. Qed.

Lemma days_in_month_le y m : days_in_month y m <= 31.
Proof.
  unfold days_in_month. destruct (leap_day_cases y) as [L|L]; rewrite L;
    destruct (m =? 2); [lia| |lia|]; destruct (_ || _); lia.
Qed.

Ltac month_cases m :=
  let H := fresh in
  assert (H : m = 0 \/ m = 1 \/ m = 2 \/ m = 3 \/ m = 4 \/ m = 5 \/ m = 6 \/
              m = 7 \/ m = 8 \/ m = 9 \/ m = 10 \/ m = 11) by lia;
  repeat (destruct H as [H|H]; [subst m|]); [..|subst m].

(** A day of the month from 1 to 31 never leaves the year. *)
Lemma MakeDay_in_year y m d :
  0 <= m <= 11 -> 1 <= d <= 31 ->
  MakeDay y m d = DayFromYear y + (month_start m (leap_day y) + d - 1) /\
  YearFromDay (MakeDay y m d) = y.
Proof.
  intros Hm Hd.
  assert (E : MakeDay y m d = DayFromYear y + (month_start m (leap_day y) + d - 1)).
  { unfold MakeDay. rewrite Z.div_small, Z.mod_small by lia.
    rewrite Z.add_0_r. lia. }
  split; [exact E|]. rewrite E.
  apply YearFromDay_spec. rewrite DayFromYear_succ, DaysInYear_leap_day.
  destruct (leap_day_cases y) as [L|L]; rewrite L;
    month_cases m; simpl; lia.
Qed.

(** The month read back from [new Date(y, m - 1, d)] is the month asked for
    exactly when the day exists in that month; otherwise it is the next one. *)
Lemma MonthFromDay_MakeDay y m d :
  1 <= m <= 12 -> 1 <= d <= 31 ->
  MonthFromDay (MakeDay y (m - 1) d) =
    if d <=? days_in_month y m then m - 1 else m.
Proof.
  intros Hm Hd.
  destruct (MakeDay_in_year y (m - 1) d ltac:(lia) Hd) as [E Y].
  unfold MonthFromDay, DayWithinYear, InLeapYear. rewrite Y, E.
  replace (DayFromYear y + (month_start (m - 1) (leap_day y) + d - 1) - DayFromYear y)
    with (month_start (m - 1) (leap_day y) + d - 1) by lia.
  assert (Hm' : 0 <= m - 1 <= 11) by lia.
  remember (m - 1) as k eqn:Ek. assert (Em : m = k + 1) by lia. subst m. clear Ek.
  destruct (leap_day_cases y) as [L|L];
    month_cases k; unfold days_in_month; simpl; rewrite L; simpl;
    repeat match goal with
           | |- context [?a <? ?b] => destruct (Z.ltb_spec a b); try lia
           | |- context [?a <=? ?b] => destruct (Z.leb_spec a b); try lia
           end.
Qed.

Lemma DateFromDay_MakeDay y m d :
  1 <= m <= 12 -> 1 <= d <= days_in_month y m ->
  DateFromDay (MakeDay y (m - 1) d) = d.
Proof.
  intros Hm Hd.
  assert (Hd31 : 1 <= d <= 31) by (pose proof (days_in_month_le y m); lia).
  unfold DateFromDay. rewrite MonthFromDay_MakeDay by assumption.
  destruct (Z.leb_spec d (days_in_month y m)); [|lia].
  destruct (MakeDay_in_year y (m - 1) d ltac:(lia) Hd31) as [E Y].
  unfold DayWithinYear, InLeapYear. rewrite Y, E. lia.
Qed.

Lemma DayFromYear_range y :
  1900 <= y <= 9999 -> -25620 <= DayFromYear y <= 2938980.
Proof.
  intros Hy.
  pose proof (DayFromYear_span 1900 (y - 1900) ltac:(lia)) as S.
  replace (1900 + (y - 1900)) with y in S by lia.
  change (DayFromYear 1900) with (-25567) in S. lia.
Qed.

(** [new Date] on numbers that passed the range checks. *)
Lemma new_Date_in_range y m d :
  1900 <= y <= 9999 -> 1 <= m <= 12 -> 1 <= d <= 31 ->
  new_Date (Num y) (Num (m - 1)) (Num d) = DateValue (MakeDay y (m - 1) d).
Proof.
  intros Hy Hm Hd. unfold new_Date.
  destruct (Z.leb_spec 0 y); [|lia]. destruct (Z.leb_spec y 99); [lia|]. simpl.
  destruct (MakeDay_in_year y (m - 1) d ltac:(lia) Hd) as [E _].
  pose proof (DayFromYear_range y Hy).
  assert (0 <= month_start (m - 1) (leap_day y) <= 335).
  { assert (Hk : 0 <= m - 1 <= 11) by lia. revert Hk.
    generalize (m - 1) as k. intros k Hk.
    destruct (leap_day_cases y) as [L|L]; rewrite L;
      month_cases k; simpl; lia. }
  destruct (Z.leb_spec (Z.abs (MakeDay y (m - 1) d)) 100000000); [reflexivity|lia].
Qed.

End DateFacts.

(** ** Strings, [split] and [parseInt] *)
Module StringFacts.

Lemma includes_app c s1 s2 :
  includes c (s1 +:+ s2) = includes c s1 || includes c s2.
Proof.
  induction s1 as [|x s1 IH]; simpl; [reflexivity|].
  now rewrite IH, orb_assoc.
Qed.

Lemma split_nonempty c s : split c s <> [].
Proof.
  destruct s as [|x s]; simpl; [discriminate|].
  destruct (Ascii.eqb x c); [discriminate|].
  destruct (split c s); discriminate.
Qed.

(** A string without the separator is a single piece. *)
Lemma split_no_separator c s : includes c s = false -> split c s = [s].
Proof.
  induction s as [|x s IH]; simpl; [reflexivity|].
  destruct (Ascii.eqb x c); simpl; [discriminate|].
  intros H. now rewrite IH.
Qed.

(** The first piece ends at the first separator. *)
Lemma split_app c s rest :
  includes c s = false ->
  split c (s +:+ String c rest) = s :: split c rest.
Proof.
  induction s as [|x s IH]; simpl.
  - now rewrite Ascii.eqb_refl.
  - destruct (Ascii.eqb x c); simpl; [discriminate|].
    intros H. now rewrite IH.
Qed.

Lemma is_digit_code x : is_digit x = true <-> 48 <= code x <= 57.
Proof. unfold is_digit. rewrite andb_true_iff, !Z.leb_le. tauto. Qed.

Lemma eqb_code x c : Ascii.eqb x c = true -> code x = code c.
Proof. intros H. apply Ascii.eqb_eq in H. now subst. Qed.

(** A string of digits contains no character that is not a digit. *)
Lemma digits_only_includes c s :
  is_digit c = false -> digits_only s = true -> includes c s = false.
Proof.
  intros Hc. induction s as [|x s IH]; simpl; [reflexivity|].
  rewrite andb_true_iff. intros [Hx Hs]. rewrite (IH Hs), orb_false_r.
  destruct (Ascii.eqb x c) eqn:E; [|reflexivity].
  apply Ascii.eqb_eq in E. congruence.
Qed.

Lemma digits_only_app s1 s2 :
  digits_only (s1 +:+ s2) = digits_only s1 && digits_only s2.
Proof.
  induction s1 as [|x s1 IH]; simpl; [reflexivity|].
  now rewrite IH, andb_assoc.
Qed.

Lemma digit_char_code r : 0 <= r < 10 -> code (digit_char r) = 48 + r.
Proof.
  intros H. unfold code, digit_char.
  rewrite nat_ascii_embedding; lia.
Qed.

Lemma is_digit_digit_char r : 0 <= r < 10 -> is_digit (digit_char r) = true.
Proof. intros H. apply is_digit_code. rewrite digit_char_code; lia. Qed.

Lemma digit_value_digit_char r : 0 <= r < 10 -> digit_value (digit_char r) = r.
Proof. intros H. unfold digit_value. rewrite digit_char_code; lia. Qed.

Lemma digits_only_decimal_digits fuel n : digits_only (decimal_digits fuel n) = true.
Proof.
  revert n. induction fuel as [|fuel IH]; intros n; simpl; [reflexivity|].
  rewrite digits_only_app. simpl.
  rewrite is_digit_digit_char by (apply Z.mod_pos_bound; lia).
  destruct (n <? 10); [reflexivity|]. now rewrite IH.
Qed.

Lemma digits_only_zeros k : digits_only (zeros k) = true.
Proof. induction k; simpl; [reflexivity|assumption]. Qed.

Lemma addLeadingZeros_nonneg n width :
  0 <= n ->
  addLeadingZeros n width = zeros (width - String.length (decimal n)) +:+ decimal n.
Proof.
  intros Hn. unfold addLeadingZeros.
  destruct (Z.ltb_spec n 0); [lia|]. now rewrite Z.abs_eq by assumption.
Qed.

Lemma digits_only_addLeadingZeros n width :
  0 <= n -> digits_only (addLeadingZeros n width) = true.
Proof.
  intros Hn. rewrite addLeadingZeros_nonneg by assumption. unfold decimal.
  now rewrite digits_only_app, digits_only_zeros, digits_only_decimal_digits.
Qed.

(** Reading digits across a concatenation. *)
Lemma digits_prefix_app s1 s2 : forall acc,
  digits_only s1 = true ->
  digits_prefix acc (s1 +:+ s2) = digits_prefix (digits_prefix acc s1) s2.
Proof.
  induction s1 as [|x s1 IH]; intros acc; simpl; [reflexivity|].
  rewrite andb_true_iff. intros [Hx Hs]. rewrite Hx. now apply IH.
Qed.

Lemma digits_prefix_stop acc s :
  no_leading_digit s = true -> digits_prefix acc s = acc.
Proof.
  destruct s as [|x s]; simpl; [reflexivity|].
  now destruct (is_digit x).
Qed.

Lemma digits_prefix_is_Some s : forall a, is_Some (digits_prefix (Some a) s).
Proof.
  induction s as [|x s IH]; intros a; simpl; [eauto|].
  destruct (is_digit x); [apply IH | eauto].
Qed.

Lemma decimal_digits_S fuel n :
  decimal_digits (S fuel) n =
    (if n <? 10 then "" else decimal_digits fuel (n / 10))
    +:+ String (digit_char (n mod 10)) "".
Proof. reflexivity. Qed.

(** The decimal digits of a natural number read back as that number. *)
Lemma digits_prefix_decimal_digits fuel : forall n,
  0 <= n < 2 ^ Z.of_nat (S fuel) ->
  digits_prefix None (decimal_digits (S fuel) n) = Some n.
Proof.
  induction fuel as [|fuel IH]; intros n Hn; rewrite decimal_digits_S.
  - change (2 ^ Z.of_nat 1) with 2 in Hn.
    destruct (Z.ltb_spec n 10); [|lia].
    rewrite Z.mod_small by lia. simpl.
    rewrite is_digit_digit_char, digit_value_digit_char by lia.
    f_equal; lia.
  - destruct (Z.ltb_spec n 10).
    + rewrite Z.mod_small by lia. simpl.
      rewrite is_digit_digit_char, digit_value_digit_char by lia.
      f_equal; lia.
    + rewrite digits_prefix_app by apply digits_only_decimal_digits.
      rewrite IH.
      * simpl. pose proof (Z.mod_pos_bound n 10 ltac:(lia)).
        rewrite is_digit_digit_char, digit_value_digit_char by lia.
        f_equal. pose proof (Z.div_mod n 10 ltac:(lia)). lia.
      * rewrite Nat2Z.inj_succ, Z.pow_succ_r in Hn by lia.
        split; [apply Z.div_pos; lia|].
        apply Z.div_lt_upper_bound; lia.
Qed.

Lemma digits_prefix_decimal n : 0 <= n -> digits_prefix None (decimal n) = Some n.
Proof.
  intros Hn. unfold decimal. apply digits_prefix_decimal_digits.
  split; [assumption|].
  rewrite Nat2Z.inj_succ, Z2Nat.id by apply Z.log2_nonneg.
  destruct (Z.eq_dec n 0) as [->|]; [reflexivity|].
  apply Z.log2_spec. lia.
Qed.

Lemma decimal_nonempty n : decimal n <> "".
Proof.
  unfold decimal. cbn [decimal_digits].
  destruct (n <? 10); [discriminate|].
  destruct (decimal_digits _ _); discriminate.
Qed.

(** Leading zeros do not change the number read. *)
Lemma digits_prefix_Some_0 s :
  digits_only s = true -> s <> "" ->
  digits_prefix (Some 0) s = digits_prefix None s.
Proof.
  destruct s as [|x s]; [congruence|]. simpl.
  rewrite andb_true_iff. now intros [-> _] _.
Qed.

Lemma digits_prefix_zeros k s :
  digits_only s = true -> s <> "" ->
  digits_prefix None (zeros k +:+ s) = digits_prefix None s.
Proof.
  intros Hd Hs. destruct k as [|k]; [reflexivity|]. simpl.
  induction k as [|k IH]; simpl.
  - now apply digits_prefix_Some_0.
  - exact IH.
Qed.

Lemma trim_start_digit s : digits_only s = true -> trim_start s = s.
Proof.
  destruct s as [|x s]; simpl; [reflexivity|].
  rewrite andb_true_iff. intros [Hx _].
  apply is_digit_code in Hx. unfold is_white_space.
  destruct (Z.leb_spec 9 (code x)), (Z.leb_spec (code x) 13),
           (Z.eqb_spec (code x) 32), (Z.eqb_spec (code x) 160);
    simpl; try reflexivity; lia.
Qed.

Lemma trim_start_app ws s :
  white_space_only ws = true -> trim_start (ws +:+ s) = trim_start s.
Proof.
  induction ws as [|x ws IH]; simpl; [reflexivity|].
  rewrite andb_true_iff. intros [-> Hws]. now apply IH.
Qed.

(** [parseInt] on a string that starts with a digit reads its digits. *)
Lemma parseInt_digits s :
  digits_only s = true -> s <> "" ->
  parseInt (Some s) = match digits_prefix None s with
                      | Some n => Num n
                      | None => NaN
                      end.
Proof.
  intros Hd Hs. unfold parseInt, ToString. rewrite trim_start_digit by assumption.
  destruct s as [|x s]; [congruence|].
  simpl in Hd. apply andb_true_iff in Hd as [Hx _].
  assert (Hminus : Ascii.eqb x "-" = false).
  { destruct (Ascii.eqb x "-") eqn:E; [|reflexivity].
    apply Ascii.eqb_eq in E. subst x. discriminate Hx. }
  assert (Hplus : Ascii.eqb x "+" = false).
  { destruct (Ascii.eqb x "+") eqn:E; [|reflexivity].
    apply Ascii.eqb_eq in E. subst x. discriminate Hx. }
  assert (E : (match String x s with
      | String "-" rest => (-1, rest)
      | String "+" rest => (1, rest)
      | _ => (1, String x s)
      end) = (1, String x s)).
  { destruct x as [[] [] [] [] [] [] [] []]; try reflexivity; discriminate. }
  rewrite E. destruct (digits_prefix None (String x s)) as [n|]; [|reflexivity].
  f_equal. lia.
Qed.

(** [parseInt] reads a padded decimal rendering back. *)
Lemma parseInt_addLeadingZeros n width :
  0 <= n -> parseInt (Some (addLeadingZeros n width)) = Num n.
Proof.
  intros Hn. rewrite parseInt_digits.
  - rewrite addLeadingZeros_nonneg by assumption.
    rewrite digits_prefix_zeros, digits_prefix_decimal; auto.
    + apply digits_only_decimal_digits.
    + apply decimal_nonempty.
  - now apply digits_only_addLeadingZeros.
  - rewrite addLeadingZeros_nonneg by assumption.
    pose proof (decimal_nonempty n).
    destruct (zeros _); simpl; [assumption|discriminate].
Qed.

(** [parseInt] skips leading white space and stops at the first character
    that is not a digit. *)
Lemma parseInt_lenient ws ds rest :
  white_space_only ws = true -> digits_only ds = true -> ds <> "" ->
  no_leading_digit rest = true ->
  parseInt (Some (ws +:+ ds +:+ rest)) = parseInt (Some ds).
Proof.
  intros Hws Hds Hne Hrest.
  assert (Hcore : forall t, digits_only t = true -> t <> "" ->
            parseInt (Some (t +:+ rest)) = parseInt (Some t)).
  { intros t Ht Hte. destruct t as [|x t]; [congruence|].
    unfold parseInt, ToString.
    assert (Hx : is_digit x = true) by (simpl in Ht; now apply andb_true_iff in Ht).
    assert (Htrim : forall u, trim_start (String x u) = String x u).
    { intros u. simpl. apply is_digit_code in Hx. unfold is_white_space.
      destruct (Z.leb_spec 9 (code x)), (Z.leb_spec (code x) 13),
               (Z.eqb_spec (code x) 32), (Z.eqb_spec (code x) 160);
        simpl; try reflexivity; lia. }
    change (String x t +:+ rest) with (String x (t +:+ rest)).
    rewrite !Htrim.
    assert (Hsign : forall u, (match String x u with
      | String "-" r => (-1, r)
      | String "+" r => (1, r)
      | _ => (1, String x u)
      end) = (1, String x u)).
    { intros u. destruct x as [[] [] [] [] [] [] [] []];
        try reflexivity; discriminate. }
    rewrite !Hsign.
    change (String x (t +:+ rest)) with (String x t +:+ rest).
    rewrite digits_prefix_app by assumption.
    now rewrite digits_prefix_stop. }
  unfold parseInt at 1. unfold ToString.
  rewrite trim_start_app by assumption.
  specialize (Hcore ds Hds Hne). unfold parseInt at 1 in Hcore.
  exact Hcore.
Qed.

End StringFacts.

(** ** The date search *)
Module SearchFacts.
Import DateFacts.

(** A date that [validate] lets through is a valid date. *)
Lemma validate_Resolved_valid monthNum dayNum yearNum date :
  validate monthNum dayNum yearNum = Resolved date ->
  isNaN (getTime date) = false.
Proof.
  unfold validate.
  destruct (_ || _); [discriminate|].
  destruct (_ || _); [discriminate|].
  destruct (_ || _); [discriminate|].
  destruct (strict_neq _ _) eqn:E; [discriminate|].
  intros [= <-]. destruct (new_Date _ _ _); [discriminate E|reflexivity].
Qed.

(** The closing [isNaN(date.getTime())] check never fires: the outcome is
    the one of the branch taken. *)
Lemma parseSearchInput_fields searchDate monthNum dayNum yearNum :
  search_fields searchDate = Some (monthNum, dayNum, yearNum) ->
  parseSearchInput searchDate = validate monthNum dayNum yearNum.
Proof.
  intros E. unfold parseSearchInput. rewrite E.
  destruct (validate monthNum dayNum yearNum) as [date|e] eqn:V; [|reflexivity].
  now rewrite (validate_Resolved_valid _ _ _ _ V).
Qed.

Lemma parseSearchInput_no_separator searchDate :
  search_fields searchDate = None ->
  parseSearchInput searchDate = Thrown InvalidFormat.
Proof. intros E. unfold parseSearchInput. now rewrite E. Qed.

Lemma search_fields_None searchDate :
  search_fields searchDate = None <->
  includes "/" searchDate = false /\ includes "-" searchDate = false.
Proof.
  unfold search_fields.
  destruct (includes "/" searchDate); [intuition discriminate|].
  destruct (includes "-" searchDate); intuition discriminate.
Qed.

(** [validate] on three integers, by ranges. *)
Lemma validate_numbers m d y :
  validate (Num m) (Num d) (Num y) =
    if (m <? 1) || (12 <? m) then Thrown InvalidMonth
    else if (d <? 1) || (31 <? d) then Thrown InvalidDay
    else if (y <? 1900) || (9999 <? y) then Thrown InvalidYear
    else if d <=? days_in_month y m
         then Resolved (DateValue (MakeDay y (m - 1) d))
         else Thrown InvalidDayForMonth.
Proof.
  unfold validate, greater, less, sub.
  destruct (Z.ltb_spec m 1); [reflexivity|].
  destruct (Z.ltb_spec 12 m); [reflexivity|].
  destruct (Z.ltb_spec d 1); [reflexivity|].
  destruct (Z.ltb_spec 31 d); [reflexivity|].
  destruct (Z.ltb_spec y 1900); [reflexivity|].
  destruct (Z.ltb_spec 9999 y); [reflexivity|]. cbn [orb].
  rewrite new_Date_in_range by lia. cbn [getMonth strict_neq].
  rewrite MonthFromDay_MakeDay by lia.
  destruct (Z.leb_spec d (days_in_month y m)).
  - now rewrite Z.eqb_refl.
  - destruct (Z.eqb_spec m (m - 1)); [lia|reflexivity].
Qed.

(** With a [NaN] among the three numbers every comparison of the range checks
    involving it is false, the date built is invalid, and its month ([NaN])
    differs from the month typed: the error is never [InvalidFormat] nor
    [InvalidDate]. *)
Lemma validate_NaN monthNum dayNum yearNum :
  monthNum = NaN \/ dayNum = NaN \/ yearNum = NaN ->
  validate monthNum dayNum yearNum = Thrown InvalidMonth \/
  validate monthNum dayNum yearNum = Thrown InvalidDay \/
  validate monthNum dayNum yearNum = Thrown InvalidYear \/
  validate monthNum dayNum yearNum = Thrown InvalidDayForMonth.
Proof.
  intros H. unfold validate.
  repeat match goal with |- context [if ?b then _ else _] => destruct b eqn:? end;
    auto.
  exfalso.
  destruct monthNum, dayNum, yearNum; simpl in *; try discriminate;
    destruct H as [H | [H | H]]; discriminate H.
Qed.

Import StringFacts.

(** With a separator in the text the error is never [InvalidFormat]. *)
Lemma recognized_never_InvalidFormat searchDate :
  includes "/" searchDate = true \/ includes "-" searchDate = true ->
  parseSearchInput searchDate <> Thrown InvalidFormat /\
  parseSearchInput searchDate <> Thrown InvalidDate.
Proof.
  intros H.
  destruct (search_fields searchDate) as [[[m d] y]|] eqn:E.
  - rewrite (parseSearchInput_fields _ _ _ _ E). unfold validate.
    repeat match goal with |- context [if ?b then _ else _] => destruct b end;
      split; discriminate.
  - apply search_fields_None in E as [E1 E2]. destruct H; congruence.
Qed.

(** [InvalidFormat] is the error of the texts without separator, and of no
    other text. *)
Lemma InvalidFormat_iff searchDate :
  parseSearchInput searchDate = Thrown InvalidFormat <->
  includes "/" searchDate = false /\ includes "-" searchDate = false.
Proof.
  split.
  - intros H.
    destruct (includes "/" searchDate) eqn:E1.
    { destruct (recognized_never_InvalidFormat searchDate) as [N _]; auto.
      contradiction. }
    destruct (includes "-" searchDate) eqn:E2.
    { destruct (recognized_never_InvalidFormat searchDate) as [N _]; auto.
      contradiction. }
    auto.
  - intros H. now apply parseSearchInput_no_separator, search_fields_None.
Qed.

Ltac expose_separators :=
  repeat match goal with
         | |- context [String ?c "" +:+ ?x] =>
             change (String c "" +:+ x) with (String c x)
         end.

(** The fields of three pieces joined by slashes. *)
Lemma search_fields_slash a b c :
  includes "/" a = false -> includes "/" b = false -> includes "/" c = false ->
  search_fields (a +:+ "/" +:+ b +:+ "/" +:+ c) =
    Some (parseInt (Some a), parseInt (Some b), parseInt (Some c)).
Proof.
  intros Ha Hb Hc. unfold search_fields. expose_separators.
  rewrite includes_app. simpl. rewrite orb_true_r.
  rewrite split_app by assumption. rewrite split_app by assumption.
  now rewrite split_no_separator by assumption.
Qed.

(** Further pieces after the third are not looked at. *)
Lemma search_fields_slash_extra a b c extra :
  includes "/" a = false -> includes "/" b = false -> includes "/" c = false ->
  search_fields (a +:+ "/" +:+ b +:+ "/" +:+ c +:+ "/" +:+ extra) =
    Some (parseInt (Some a), parseInt (Some b), parseInt (Some c)).
Proof.
  intros Ha Hb Hc. unfold search_fields. expose_separators.
  rewrite includes_app. simpl. rewrite orb_true_r.
  rewrite split_app by assumption. rewrite split_app by assumption.
  rewrite split_app by assumption. reflexivity.
Qed.

(** The fields of three pieces joined by hyphens, year first. *)
Lemma search_fields_hyphen y m d :
  includes "/" y = false -> includes "/" m = false -> includes "/" d = false ->
  includes "-" y = false -> includes "-" m = false -> includes "-" d = false ->
  search_fields (y +:+ "-" +:+ m +:+ "-" +:+ d) =
    Some (parseInt (Some m), parseInt (Some d), parseInt (Some y)).
Proof.
  intros Hy Hm Hd Hy' Hm' Hd'. unfold search_fields. expose_separators.
  assert (E : includes "/" (y +:+ String "-" (m +:+ String "-" d)) = false).
  { rewrite includes_app. simpl. rewrite includes_app. simpl.
    now rewrite Hy, Hm, Hd. }
  rewrite E. rewrite includes_app. simpl. rewrite orb_true_r.
  rewrite split_app by assumption. rewrite split_app by assumption.
  now rewrite split_no_separator by assumption.
Qed.

(** Both renderings of the same three numbers have the same outcome. *)
Lemma renderings_agree m d y :
  parseSearchInput (render_MM_DD_YYYY m d y) =
  parseSearchInput (render_YYYY_MM_DD m d y).
Proof.
  assert (Hs : forall n w, includes "/" (addLeadingZeros (Z.of_N n) w) = false).
  { intros. apply digits_only_includes;
      [reflexivity | apply digits_only_addLeadingZeros; lia]. }
  assert (Hh : forall n w, includes "-" (addLeadingZeros (Z.of_N n) w) = false).
  { intros. apply digits_only_includes;
      [reflexivity | apply digits_only_addLeadingZeros; lia]. }
  unfold render_MM_DD_YYYY, render_YYYY_MM_DD.
  rewrite (parseSearchInput_fields _ _ _ _ (search_fields_slash _ _ _ (Hs _ _) (Hs _ _) (Hs _ _))).
  rewrite (parseSearchInput_fields _ _ _ _
             (search_fields_hyphen _ _ _ (Hs _ _) (Hs _ _) (Hs _ _) (Hh _ _) (Hh _ _) (Hh _ _))).
  reflexivity.
Qed.

(** The rendering of a date that exists resolves to that date. *)
Lemma rendering_resolves m d y :
  1 <= Z.of_N m <= 12 -> 1900 <= Z.of_N y <= 9999 ->
  1 <= Z.of_N d <= days_in_month (Z.of_N y) (Z.of_N m) ->
  parseSearchInput (render_MM_DD_YYYY m d y) =
    Resolved (DateValue (MakeDay (Z.of_N y) (Z.of_N m - 1) (Z.of_N d))).
Proof.
  intros Hm Hy Hd.
  assert (Hs : forall n w, includes "/" (addLeadingZeros (Z.of_N n) w) = false).
  { intros. apply digits_only_includes;
      [reflexivity | apply digits_only_addLeadingZeros; lia]. }
  unfold render_MM_DD_YYYY.
  rewrite (parseSearchInput_fields _ _ _ _ (search_fields_slash _ _ _ (Hs _ _) (Hs _ _) (Hs _ _))).
  rewrite !parseInt_addLeadingZeros by lia.
  rewrite validate_numbers.
  pose proof (days_in_month_le (Z.of_N y) (Z.of_N m)).
  repeat match goal with
         | |- context [?a <? ?b] => destruct (Z.ltb_spec a b); try lia
         end.
  cbn [orb].
  destruct (Z.leb_spec (Z.of_N d) (days_in_month (Z.of_N y) (Z.of_N m)));
    [reflexivity|lia].
Qed.

(** The outcome depends on the first three pieces only. *)
Lemma first_three_pieces_slash s s' :
  includes "/" s = true -> includes "/" s' = true ->
  take 3 (split "/" s) = take 3 (split "/" s') ->
  parseSearchInput s = parseSearchInput s'.
Proof.
  intros Hs Hs' E.
  assert (L : forall i, (i < 3)%nat -> split "/" s !! i = split "/" s' !! i).
  { intros i Hi. rewrite <- (lookup_take_lt (split "/" s) 3 i Hi).
    rewrite <- (lookup_take_lt (split "/" s') 3 i Hi). now rewrite E. }
  unfold parseSearchInput, search_fields. rewrite Hs, Hs'.
  now rewrite !L by lia.
Qed.

Lemma first_three_pieces_hyphen s s' :
  includes "/" s = false -> includes "/" s' = false ->
  includes "-" s = true -> includes "-" s' = true ->
  take 3 (split "-" s) = take 3 (split "-" s') ->
  parseSearchInput s = parseSearchInput s'.
Proof.
  intros Hn Hn' Hs Hs' E.
  assert (L : forall i, (i < 3)%nat -> split "-" s !! i = split "-" s' !! i).
  { intros i Hi. rewrite <- (lookup_take_lt (split "-" s) 3 i Hi).
    rewrite <- (lookup_take_lt (split "-" s') 3 i Hi). now rewrite E. }
  unfold parseSearchInput, search_fields. rewrite Hn, Hn', Hs, Hs'.
  now rewrite !L by lia.
Qed.

Lemma parseInt_reads_as digits text :
  reads_as digits text -> parseInt (Some text) = parseInt (Some digits).
Proof. intros [ws rest Hws Hd Hne Hrest]. now apply parseInt_lenient. Qed.

(** Padded pieces and further pieces do not change the outcome. *)
Lemma padded_pieces_slash m d y m' d' y' extra :
  reads_as m m' -> reads_as d d' -> reads_as y y' ->
  includes "/" m' = false -> includes "/" d' = false -> includes "/" y' = false ->
  parseSearchInput (m' +:+ "/" +:+ d' +:+ "/" +:+ y' +:+ "/" +:+ extra) =
  parseSearchInput (m +:+ "/" +:+ d +:+ "/" +:+ y)
  /\
  parseSearchInput (m' +:+ "/" +:+ d' +:+ "/" +:+ y') =
  parseSearchInput (m +:+ "/" +:+ d +:+ "/" +:+ y).
Proof.
  intros Rm Rd Ry Hm' Hd' Hy'.
  assert (Hdig : forall t t', reads_as t t' -> includes "/" t = false).
  { intros t t' [ws rest _ Ht _ _]. now apply digits_only_includes. }
  rewrite (parseSearchInput_fields _ _ _ _ (search_fields_slash_extra _ _ _ extra Hm' Hd' Hy')).
  rewrite (parseSearchInput_fields _ _ _ _ (search_fields_slash _ _ _ Hm' Hd' Hy')).
  rewrite (parseSearchInput_fields _ _ _ _
             (search_fields_slash _ _ _ (Hdig _ _ Rm) (Hdig _ _ Rd) (Hdig _ _ Ry))).
  now rewrite (parseInt_reads_as _ _ Rm), (parseInt_reads_as _ _ Rd),
    (parseInt_reads_as _ _ Ry).
Qed.

(** Every error thrown is shown with its own text. *)
Lemma caught_message_message e : caught_message (message e) = message e.
Proof. now destruct e. Qed.

(** What the handler shows: the long form of the date resolved, or the text
    of the error. *)
Lemma handleSearch_result eventsByDate st :
  searchResult (handleSearch eventsByDate st) =
    match parseSearchInput (searchDate st) with
    | Resolved (DateValue day) => Some (long_form day)
    | Resolved Invalid_Date => Some "Invalid time value"
    | Thrown e => Some (message e)
    end.
Proof.
  unfold handleSearch.
  destruct (parseSearchInput (searchDate st)) as [[|day]|e]; simpl;
    [reflexivity | reflexivity | now rewrite caught_message_message].
Qed.

(** A failed search leaves the month shown and the selection as they were. *)
Lemma handleSearch_error eventsByDate st e :
  parseSearchInput (searchDate st) = Thrown e ->
  handleSearch eventsByDate st =
    {| currentMonth := currentMonth st;
       selectedDate := selectedDate st;
       selectedEvents := selectedEvents st;
       searchDate := searchDate st;
       searchResult := Some (message e) |}.
Proof.
  intros E. unfold handleSearch. now rewrite E, caught_message_message.
Qed.

End SearchFacts.

(** ** Conflict detection *)
Module ConflictFacts.

Lemma lookup_map {A B : Type} (f : A -> B) (l : list A) (i : nat) :
  map f l !! i = f <$> (l !! i).
Proof. apply (list_lookup_fmap f l i). Qed.

Lemma Math_min_comm a b : Math_min a b = Math_min b a.
Proof. destruct a, b; simpl; try reflexivity. now rewrite Z.min_comm. Qed.

Lemma Math_max_comm a b : Math_max a b = Math_max b a.
Proof. destruct a, b; simpl; try reflexivity. now rewrite Z.max_comm. Qed.

(** The overlap of two events does not depend on their order. *)
Lemma overlap_comm a b : overlap a b = overlap b a.
Proof.
  unfold overlap.
  now rewrite (Math_min_comm (end_of a)), (Math_max_comm (start_of a)).
Qed.

Lemma overlaps_comm a b : overlaps a b = overlaps b a.
Proof. unfold overlaps. now rewrite overlap_comm. Qed.

Lemma overlaps_at_comm evs i j : overlaps_at evs i j = overlaps_at evs j i.
Proof.
  unfold overlaps_at. destruct (evs !! i), (evs !! j); try reflexivity.
  apply overlaps_comm.
Qed.

Lemma overlaps_at_lt evs i j :
  overlaps_at evs i j = true -> (i < length evs)%nat /\ (j < length evs)%nat.
Proof.
  unfold overlaps_at.
  destruct (evs !! i) eqn:Ei; [|discriminate].
  destruct (evs !! j) eqn:Ej; [|discriminate].
  intros _. split; eapply lookup_lt_Some; eassumption.
Qed.

(** An overlap is positive only between two events with numeric times, and
    then it is the length of the intersection of the two ranges. *)
Lemma overlaps_true a b :
  overlaps a b = true <->
  exists sa sb,
    start_of a = Num sa /\ start_of b = Num sb /\
    0 < Z.min (sa + durationMinutes a) (sb + durationMinutes b) - Z.max sa sb.
Proof.
  unfold overlaps, overlap, end_of, greater, less.
  destruct (start_of a) as [|sa], (start_of b) as [|sb]; simpl;
    try (split; [discriminate | intros (? & ? & ? & ? & ?); discriminate]).
  rewrite Z.ltb_lt. split.
  - intros H. exists sa, sb. repeat split. lia.
  - intros (? & ? & [= <-] & [= <-] & H). lia.
Qed.

Lemma event_set_conflict i results :
  map event (set_conflict i results) = map event results.
Proof.
  apply list_eq. intros k. rewrite !lookup_map. unfold set_conflict.
  destruct (decide (i = k)) as [->|Hne].
  - rewrite list_lookup_alter_eq. now destruct (results !! k).
  - now rewrite list_lookup_alter_ne.
Qed.

Lemma length_set_conflict i results :
  length (set_conflict i results) = length results.
Proof. apply length_alter. Qed.

Lemma lookup_set_conflict i results k r :
  set_conflict i results !! k = Some r <->
  exists r0, results !! k = Some r0 /\ event r = event r0 /\
             conflict r = (if decide (i = k) then true else conflict r0).
Proof.
  unfold set_conflict. destruct (decide (i = k)) as [->|Hne].
  - rewrite list_lookup_alter_eq. destruct (results !! k) as [r0|]; simpl.
    + split.
      * intros [= <-]. now exists r0.
      * intros (r1 & [= <-] & He & Hc). destruct r; simpl in *. now subst.
    + split; [discriminate | intros (? & ? & _); discriminate].
  - rewrite list_lookup_alter_ne by assumption. split.
    + intros H. now exists r.
    + intros (r0 & H & He & Hc). rewrite H. f_equal.
      destruct r, r0; simpl in *. now subst.
Qed.

Lemma flags_for_ext evs (P Q : nat -> nat -> Prop) results :
  (forall i j, P i j <-> Q i j) ->
  flags_for evs P results -> flags_for evs Q results.
Proof.
  intros HPQ [He Hf]. split; [exact He|].
  intros k r Hk. rewrite (Hf k r Hk).
  split; intros (i & j & H & Ho & Hkij); exists i, j; (split; [|tauto]);
    now apply HPQ.
Qed.

(** Flagging both events of an overlapping pair just compared. *)
Lemma flags_for_mark evs P results i j :
  flags_for evs P results ->
  overlaps_at evs i j = true ->
  flags_for evs (fun x y => P x y \/ (x = i /\ y = j))
    (set_conflict j (set_conflict i results)).
Proof.
  intros [He Hf] Ho. split.
  - now rewrite !event_set_conflict.
  - intros k r Hk.
    apply lookup_set_conflict in Hk as (r1 & Hk & _ & Hc1).
    apply lookup_set_conflict in Hk as (r0 & Hk & _ & Hc0).
    specialize (Hf k r0 Hk). rewrite Hc1. split.
    + intros H. destruct (decide (j = k)) as [<-|Hj].
      { exists i, j. auto. }
      rewrite Hc0 in H. destruct (decide (i = k)) as [<-|Hi].
      { exists i, j. auto. }
      apply Hf in H as (x & y & HP & Hxy & Hkxy). exists x, y. auto.
    + intros (x & y & [HP | [-> ->]] & Hxy & Hkxy).
      * destruct (decide (j = k)); [reflexivity|]. rewrite Hc0.
        destruct (decide (i = k)); [reflexivity|].
        apply Hf. now exists x, y.
      * destruct Hkxy as [->| ->].
        -- destruct (decide (j = i)); [reflexivity|]. rewrite Hc0.
           destruct (decide (i = i)); [reflexivity|congruence].
        -- destruct (decide (j = j)); [reflexivity|congruence].
Qed.

(** A pair compared without overlap leaves the flags as they are. *)
Lemma flags_for_skip evs P results i j :
  flags_for evs P results ->
  overlaps_at evs i j = false ->
  flags_for evs (fun x y => P x y \/ (x = i /\ y = j)) results.
Proof.
  intros [He Hf] Ho. split; [exact He|].
  intros k r Hk. rewrite (Hf k r Hk). split.
  - intros (x & y & HP & H). exists x, y. auto.
  - intros (x & y & [HP | [-> ->]] & Hxy & Hkxy).
    + now exists x, y.
    + congruence.
Qed.

(** One iteration of the inner loop compares the pair [(i, j)]. *)
Lemma inner_body_flags evs P results i j a :
  flags_for evs P results ->
  evs !! i = Some a ->
  flags_for evs (fun x y => P x y \/ (x = i /\ y = j))
    (inner_body i (start_of a) (end_of a) results j).
Proof.
  intros Hinv Hi. unfold inner_body.
  assert (Hj : evs !! j = event <$> results !! j).
  { destruct Hinv as [<- _]. apply lookup_map. }
  destruct (results !! j) as [rj|]; simpl in Hj.
  - assert (Ho : overlaps_at evs i j = overlaps a (event rj)).
    { unfold overlaps_at. now rewrite Hi, Hj. }
    change (greater _ (Num 0)) with (overlaps a (event rj)).
    destruct (overlaps a (event rj)).
    + now apply flags_for_mark.
    + now apply flags_for_skip.
  - apply flags_for_skip; [assumption|].
    unfold overlaps_at. now rewrite Hi, Hj.
Qed.

Lemma inner_body_length i aStart aEnd results j :
  length (inner_body i aStart aEnd results j) = length results.
Proof.
  unfold inner_body. destruct (results !! j); [|reflexivity].
  destruct (greater _ _); [|reflexivity]. now rewrite !length_set_conflict.
Qed.

(** The inner loop over a list of positions [js]. *)
Lemma inner_loop_flags evs i a js : forall P results,
  flags_for evs P results ->
  evs !! i = Some a ->
  flags_for evs (fun x y => P x y \/ (x = i /\ In y js))
    (fold_left (inner_body i (start_of a) (end_of a)) js results).
Proof.
  induction js as [|j js IH]; intros P results Hinv Hi; simpl.
  - eapply flags_for_ext; [|exact Hinv]. intros x y; simpl. tauto.
  - eapply flags_for_ext;
      [|apply IH; [apply inner_body_flags; eassumption | assumption]].
    intros x y; simpl. intuition (subst; auto).
Qed.

(** One iteration of the outer loop compares [i] with every later position. *)
Lemma outer_body_flags evs P results i :
  flags_for evs P results ->
  flags_for evs (fun x y => P x y \/ (x = i /\ (i < y < length evs)%nat))
    (outer_body results i).
Proof.
  intros Hinv. unfold outer_body.
  assert (Hlen : length results = length evs).
  { destruct Hinv as [<- _]. now rewrite length_map. }
  assert (Hi : evs !! i = event <$> results !! i).
  { destruct Hinv as [<- _]. apply lookup_map. }
  destruct (results !! i) as [ri|] eqn:Ei; simpl in Hi.
  - unfold for_range.
    eapply flags_for_ext;
      [|apply (inner_loop_flags evs i (event ri)); eassumption].
    intros x y; simpl. rewrite in_seq, Hlen.
    apply lookup_lt_Some in Ei. split; intros [H | [-> H]]; auto; right; split; auto; lia.
  - apply lookup_ge_None in Ei.
    eapply flags_for_ext; [|exact Hinv].
    intros x y. split; [auto|]. intros [H | [-> H]]; [assumption | lia].
Qed.

Lemma outer_loop_flags evs positions : forall P results,
  flags_for evs P results ->
  flags_for evs (fun x y => P x y \/ (In x positions /\ (x < y < length evs)%nat))
    (fold_left outer_body positions results).
Proof.
  induction positions as [|i positions IH]; intros P results Hinv; simpl.
  - eapply flags_for_ext; [|exact Hinv]. intros x y; simpl. tauto.
  - eapply flags_for_ext; [|apply IH, outer_body_flags, Hinv].
    intros x y; simpl. intuition (subst; auto).
Qed.

(** The loops of [detectConflicts] flag the members of the overlapping pairs
    of positions. *)
Lemma detectConflicts_flags evs :
  flags_for evs (fun i j => (i < j < length evs)%nat) (detectConflicts evs).
Proof.
  unfold detectConflicts, for_range. cbv zeta.
  rewrite length_map, Nat.sub_0_r.
  eapply flags_for_ext; [|apply outer_loop_flags with (P := fun _ _ => False)].
  - intros i j. cbv beta. rewrite in_seq. split.
    + intros [[] | [_ H]]. exact H.
    + intros H. right. split; lia.
  - split.
    + rewrite map_map. simpl. apply map_id.
    + intros k r Hk. rewrite lookup_map in Hk.
      destruct (evs !! k); [|discriminate]. injection Hk as <-. simpl.
      split; [discriminate | intros (? & ? & [] & _)].
Qed.

Lemma detectConflicts_events evs : map event (detectConflicts evs) = evs.
Proof. apply detectConflicts_flags. Qed.

Lemma detectConflicts_length evs : length (detectConflicts evs) = length evs.
Proof. now rewrite <- (detectConflicts_events evs) at 2; rewrite length_map. Qed.

(** An element of the result is flagged exactly when the event at its
    position overlaps the event at some other position. *)
Lemma detectConflicts_conflict evs k r :
  detectConflicts evs !! k = Some r ->
  (conflict r = true <->
   exists j, j <> k /\ overlaps_at evs k j = true).
Proof.
  intros Hk. destruct (detectConflicts_flags evs) as [_ Hf].
  rewrite (Hf k r Hk). split.
  - intros (i & j & Hij & Ho & [-> | ->]).
    + exists j. split; [lia | assumption].
    + exists i. split; [lia | now rewrite overlaps_at_comm].
  - intros (j & Hne & Ho). pose proof (overlaps_at_lt _ _ _ Ho) as [Hk' Hj].
    destruct (Nat.lt_ge_cases k j).
    + exists k, j. auto.
    + exists j, k. rewrite overlaps_at_comm. split; [lia | auto].
Qed.

End ConflictFacts.

(** ** The event index *)
Module IndexFacts.

Lemma events_on_cons key e events :
  events_on key (e :: events) =
    if String.eqb (date e) key then e :: events_on key events
    else events_on key events.
Proof. reflexivity. Qed.

(** A string that starts with a digit is none of the names every object
    inherits; so is a date key. *)
Lemma leading_digit_not_inherited x rest :
  is_digit x = true -> inherited (String x rest) = false.
Proof.
  intros Hx.
  assert (E : forall c, is_digit c = false -> Ascii.eqb x c = false).
  { intros c Hc. destruct (Ascii.eqb x c) eqn:E; [|reflexivity].
    apply Ascii.eqb_eq in E. congruence. }
  unfold inherited, Object_prototype_names. cbn [existsb String.eqb].
  now rewrite !E by reflexivity.
Qed.

Lemma date_key_not_inherited key :
  shape_YYYY_MM_DD key = true -> inherited key = false.
Proof.
  destruct key as [|x key]; [discriminate|].
  unfold shape_YYYY_MM_DD. cbn [list_ascii_of_string].
  do 9 (destruct key as [|? key]; [discriminate|]).
  destruct key; [|discriminate].
  cbn [list_ascii_of_string forallb]. rewrite !andb_true_iff.
  intros [[[Hx _] _] _]. now apply leading_digit_not_inherited.
Qed.

(** The key [format] produces for a day is none of those names either, so
    the lookups of the component (lines 133 and 213) find an array or
    nothing. *)
Lemma toKey_day_not_inherited day : inherited (toKey_day day) = false.
Proof.
  unfold toKey_day.
  set (year := if 0 <? YearFromDay day then YearFromDay day else 1 - YearFromDay day).
  assert (Hy : 0 <= year).
  { unfold year. destruct (Z.ltb_spec 0 (YearFromDay day)); lia. }
  pose proof (StringFacts.digits_only_addLeadingZeros year 4 Hy) as Hd.
  rewrite (StringFacts.addLeadingZeros_nonneg year 4 Hy) in *.
  pose proof (StringFacts.decimal_nonempty year) as Hne.
  destruct (zeros _ +:+ decimal year) as [|x rest] eqn:E.
  - destruct (zeros (4 - String.length (decimal year))); [contradiction|discriminate].
  - simpl in Hd. apply andb_true_iff in Hd as [Hx _].
    now apply (leading_digit_not_inherited x).
Qed.

(** The key of the date a rendering resolves to is the [YYYY-MM-DD]
    rendering. *)
Lemma toKey_day_MakeDay (m d y : N) :
  1 <= Z.of_N m <= 12 -> 1 <= Z.of_N y ->
  1 <= Z.of_N d <= days_in_month (Z.of_N y) (Z.of_N m) ->
  toKey_day (MakeDay (Z.of_N y) (Z.of_N m - 1) (Z.of_N d)) = render_YYYY_MM_DD m d y.
Proof.
  intros Hm Hy Hd. pose proof (DateFacts.days_in_month_le (Z.of_N y) (Z.of_N m)).
  unfold toKey_day, render_YYYY_MM_DD.
  rewrite DateFacts.DateFromDay_MakeDay by assumption.
  rewrite DateFacts.MonthFromDay_MakeDay by lia.
  destruct (DateFacts.MakeDay_in_year (Z.of_N y) (Z.of_N m - 1) (Z.of_N d))
    as [_ ->]; [lia | lia |].
  destruct (Z.leb_spec (Z.of_N d) (days_in_month (Z.of_N y) (Z.of_N m))); [|lia].
  destruct (Z.ltb_spec 0 (Z.of_N y)); [|lia].
  now replace (Z.of_N m - 1 + 1) with (Z.of_N m) by lia.
Qed.

(** One callback of [forEach] on an event whose date is not an inherited
    name: the event goes to the end of the array of its date. *)
Lemma group_event_spec map e :
  inherited (date e) = false ->
  group_event map e =
    Some (<[date e := default [] (map !! date e) ++ [e]]> map).
Proof.
  intros Hd. unfold group_event, get.
  destruct (map !! date e) as [old|] eqn:E; simpl.
  - now rewrite E.
  - rewrite Hd. simpl. rewrite lookup_insert_eq. now rewrite insert_insert_eq.
Qed.

(** The index after [forEach] over a list of events, from any index. *)
Lemma forEach_group_event events : forall map : gmap string (list Event),
  (forall e, In e events -> inherited (date e) = false) ->
  exists map',
    forEach group_event events map = Some map' /\
    forall key,
      map' !! key =
        match map !! key, events_on key events with
        | None, [] => None
        | old, added => Some (default [] old ++ added)
        end.
Proof.
  induction events as [|e events IH]; intros map Hev.
  - exists map. split; [reflexivity|]. intros key. simpl.
    destruct (map !! key); simpl; [now rewrite app_nil_r | reflexivity].
  - cbn [forEach]. rewrite group_event_spec by (apply Hev; now left).
    destruct (IH (<[date e := default [] (map !! date e) ++ [e]]> map))
      as (map' & Hrun & Hmap').
    { intros e' He'. apply Hev. now right. }
    exists map'. split; [exact Hrun|]. intros key. rewrite Hmap'.
    rewrite events_on_cons.
    destruct (String.eqb_spec (date e) key) as [->|Hne].
    + rewrite lookup_insert_eq. simpl.
      destruct (map !! key) as [old|]; simpl.
      * destruct (events_on key events); now rewrite <- app_assoc.
      * now destruct (events_on key events).
    + now rewrite lookup_insert_ne.
Qed.

(** The index of a list of events holds, under each date that occurs, the
    events of that date in the order of the list, and nothing else. *)
Lemma groupEventsByDate_spec events :
  (forall e, In e events -> inherited (date e) = false) ->
  exists index,
    groupEventsByDate events = Some index /\
    forall key,
      index !! key =
        match events_on key events with
        | [] => None
        | found => Some found
        end.
Proof.
  intros Hev. destruct (forEach_group_event events ∅ Hev) as (index & Hrun & Hidx).
  exists index. split; [exact Hrun|]. intros key. rewrite Hidx, lookup_empty.
  now destruct (events_on key events).
Qed.

Lemma lookup_events_spec (index : gmap string (list Event)) key found :
  inherited key = false ->
  index !! key = match found with [] => None | _ => Some found end ->
  lookup_events index key = Own found.
Proof.
  intros Hk E. unfold lookup_events, get. rewrite E, Hk.
  now destruct found.
Qed.

Lemma In_events_on key e events :
  In e (events_on key events) <-> In e events /\ date e = key.
Proof.
  unfold events_on. rewrite filter_In. now rewrite String.eqb_eq.
Qed.

Lemma events_on_absent key events :
  (forall e, In e events -> date e <> key) -> events_on key events = [].
Proof.
  intros H. destruct (events_on key events) as [|e l] eqn:E; [reflexivity|].
  assert (Hin : In e (events_on key events)) by (rewrite E; now left).
  apply In_events_on in Hin as [Hin Hd]. now apply H in Hin.
Qed.

(** Looking a key up in the index of a list gives the events of that date. *)
Lemma groupEventsByDate_lookup events :
  (forall e, In e events -> inherited (date e) = false) ->
  exists index,
    groupEventsByDate events = Some index /\
    forall key, inherited key = false ->
      lookup_events index key = Own (events_on key events).
Proof.
  intros Hev.
  destruct (groupEventsByDate_spec events Hev) as (index & Hrun & Hidx).
  exists index. split; [exact Hrun|]. intros key Hkey.
  apply lookup_events_spec; [exact Hkey|]. rewrite Hidx.
  now destruct (events_on key events).
Qed.

End IndexFacts.

(** ** [detectConflicts] on the store *)
Module StoreFacts.

Section Represents.
Context {st st' : gmap Store.loc Store.Cell} {results : Store.loc} {copies : list Store.loc}
        {annotated : list AnnotatedEvent}.
Hypothesis R : Store.represents st st' results copies annotated.

Lemma rep_length : length copies = length annotated.
Proof. eapply Forall2_length, Store.rep_objects, R. Qed.

Lemma rep_object i l a :
  copies !! i = Some l -> annotated !! i = Some a ->
  st !! l = None /\ st' !! l = Some (Store.ObjectCell (Store.object_of a)).
Proof.
  intros Hl Ha.
  exact (Forall2_lookup_lr _ _ _ _ _ _ (Store.rep_objects _ _ _ _ _ R) Hl Ha).
Qed.

Lemma rep_copy i a : annotated !! i = Some a -> exists l, copies !! i = Some l.
Proof.
  intros Ha.
  destruct (Forall2_lookup_r _ _ _ _ _ (Store.rep_objects _ _ _ _ _ R) Ha) as (l & Hl & _).
  eauto.
Qed.

Lemma ref_at_represents i l :
  copies !! i = Some l -> Store.ref_at results i st' = Some (l, st').
Proof.
  intros Hl. unfold Store.ref_at, Store.bind, Store.read_array, Store.element.
  rewrite (Store.rep_array _ _ _ _ _ R), Hl. reflexivity.
Qed.

Lemma object_at_represents i a :
  annotated !! i = Some a -> Store.object_at results i st' = Some (Store.object_of a, st').
Proof.
  intros Ha. destruct (rep_copy i a Ha) as [l Hl].
  unfold Store.object_at, Store.bind. rewrite (ref_at_represents i l Hl).
  unfold Store.read_object. now destruct (rep_object i l a Hl Ha) as [_ ->].
Qed.

Lemma length_of_represents : Store.length_of results st' = Some (length annotated, st').
Proof.
  unfold Store.length_of, Store.bind, Store.read_array, Store.ret.
  now rewrite (Store.rep_array _ _ _ _ _ R), rep_length.
Qed.

(** Writing [conflict] through the [i]-th reference of the result changes
    the [i]-th annotated event and nothing else. *)
Lemma write_conflict_represents i l :
  copies !! i = Some l ->
  exists st'',
    Store.write_conflict l st' = Some (tt, st'') /\
    Store.represents st st'' results copies (set_conflict i annotated).
Proof.
  intros Hl.
  assert (Hi : (i < length annotated)%nat).
  { rewrite <- rep_length. eapply lookup_lt_Some, Hl. }
  destruct (lookup_lt_is_Some_2 _ _ Hi) as [a Ha].
  destruct (rep_object i l a Hl Ha) as [Hnew Hobj].
  unfold Store.write_conflict. rewrite Hobj. eexists. split; [reflexivity|].
  destruct R as [Hframe Harr Hanew Hdistinct Hapart Hobjs].
  split; try assumption.
  - intros l0 c Hc. rewrite lookup_insert_ne; [now apply Hframe | congruence].
  - rewrite lookup_insert_ne; [assumption|].
    intros ->. apply Hapart. apply list_elem_of_In.
    eapply list_elem_of_lookup_2, Hl.
  - apply Forall2_same_length_lookup. split.
    + now rewrite ConflictFacts.length_set_conflict, rep_length.
    + intros k lk ak Hlk Hak.
      apply ConflictFacts.lookup_set_conflict in Hak as (a0 & Ha0 & He & Hc).
      destruct (Forall2_lookup_lr _ _ _ _ _ _ Hobjs Hlk Ha0) as [Hk1 Hk2].
      split; [assumption|].
      destruct (decide (i = k)) as [<-|Hne].
      * assert (lk = l) by congruence. subst lk.
        rewrite lookup_insert_eq. do 2 f_equal.
        assert (a0 = a) by congruence. subst a0.
        unfold Store.object_of. simpl. now rewrite He, Hc.
      * rewrite lookup_insert_ne.
        -- rewrite Hk2. do 2 f_equal. unfold Store.object_of. now rewrite He, Hc.
        -- intros ->. apply Hne. eapply NoDup_lookup; eassumption.
Qed.

End Represents.

(** One iteration of the inner loop on the store is one iteration of the
    inner loop on the list it Store.represents. *)
Lemma inner_body_represents st st' results copies annotated i aStart aEnd j :
  Store.represents st st' results copies annotated ->
  (i < length annotated)%nat -> (j < length annotated)%nat ->
  exists st'',
    Store.inner_body results i aStart aEnd j st' = Some (tt, st'') /\
    Store.represents st st'' results copies (inner_body i aStart aEnd annotated j).
Proof.
  intros R Hi Hj.
  destruct (lookup_lt_is_Some_2 _ _ Hj) as [rj Hrj].
  destruct (rep_copy R j rj Hrj) as [lj Hlj].
  destruct (lookup_lt_is_Some_2 copies i) as [li Hli].
  { now rewrite (rep_length R). }
  unfold Store.inner_body, inner_body, Store.bind.
  rewrite (object_at_represents R j rj Hrj), Hrj.
  cbn [Store.properties Store.object_of].
  match goal with |- context [if ?b then _ else _] => destruct b end.
  - rewrite (ref_at_represents R i li Hli).
    destruct (write_conflict_represents R i li Hli) as (st1 & -> & R1).
    rewrite (ref_at_represents R1 j lj Hlj).
    exact (write_conflict_represents R1 j lj Hlj).
  - exists st'. split; [reflexivity | exact R].
Qed.

Lemma inner_loop_represents st results copies i aStart aEnd positions :
  forall st' annotated,
  Store.represents st st' results copies annotated ->
  (i < length annotated)%nat ->
  Forall (fun j => (j < length annotated)%nat) positions ->
  exists st'',
    Store.for_each positions (Store.inner_body results i aStart aEnd) st' = Some (tt, st'') /\
    Store.represents st st'' results copies
      (fold_left (inner_body i aStart aEnd) positions annotated).
Proof.
  induction positions as [|j positions IH]; intros st' annotated R Hi Hpos.
  - exists st'. split; [reflexivity | exact R].
  - apply Forall_cons in Hpos as [Hj Hpos].
    destruct (inner_body_represents _ _ _ _ _ i aStart aEnd j R Hi Hj)
      as (st1 & Hrun & R1).
    cbn [Store.for_each fold_left]. unfold Store.bind at 1. rewrite Hrun.
    apply (IH st1 _ R1).
    + now rewrite ConflictFacts.inner_body_length.
    + eapply Forall_impl; [exact Hpos|]. intros k Hk. simpl.
      now rewrite ConflictFacts.inner_body_length.
Qed.

Lemma outer_body_length results i :
  length (outer_body results i) = length results.
Proof.
  unfold outer_body. destruct (results !! i); [|reflexivity].
  unfold for_range. generalize (seq (i + 1) (length results - (i + 1))).
  intros positions. revert results.
  induction positions as [|j positions IH]; intros results; [reflexivity|].
  simpl. now rewrite IH, ConflictFacts.inner_body_length.
Qed.

Lemma outer_body_represents st st' results copies annotated i :
  Store.represents st st' results copies annotated ->
  (i < length annotated)%nat ->
  exists st'',
    Store.outer_body results i st' = Some (tt, st'') /\
    Store.represents st st'' results copies (outer_body annotated i).
Proof.
  intros R Hi.
  destruct (lookup_lt_is_Some_2 _ _ Hi) as [ri Hri].
  unfold Store.outer_body, outer_body, Store.bind.
  rewrite (object_at_represents R i ri Hri), Hri, (length_of_represents R).
  apply inner_loop_represents; [exact R | exact Hi |].
  apply Forall_forall. intros j Hj. apply elem_of_seq in Hj. lia.
Qed.

Lemma outer_loop_represents st results copies positions :
  forall st' annotated,
  Store.represents st st' results copies annotated ->
  Forall (fun i => (i < length annotated)%nat) positions ->
  exists st'',
    Store.for_each positions (Store.outer_body results) st' = Some (tt, st'') /\
    Store.represents st st'' results copies (fold_left outer_body positions annotated).
Proof.
  induction positions as [|i positions IH]; intros st' annotated R Hpos.
  - exists st'. split; [reflexivity | exact R].
  - apply Forall_cons in Hpos as [Hi Hpos].
    destruct (outer_body_represents _ _ _ _ _ i R Hi) as (st1 & Hrun & R1).
    cbn [Store.for_each fold_left]. unfold Store.bind at 1. rewrite Hrun.
    apply (IH st1 _ R1).
    eapply Forall_impl; [exact Hpos|]. intros k Hk. simpl.
    now rewrite outer_body_length.
Qed.

(** [map] copies every element into a new object with [conflict] false and
    leaves the store it started from as it was. *)
Lemma map_spread_spec elements : forall objs st,
  Forall2 (fun l o => st !! l = Some (Store.ObjectCell o)) elements objs ->
  exists copies st',
    Store.map_spread elements st = Some (copies, st') /\
    (forall l c, st !! l = Some c -> st' !! l = Some c) /\
    NoDup copies /\
    Forall2 (fun l o =>
        st !! l = None /\
        st' !! l = Some (Store.ObjectCell
                           {| Store.properties := Store.properties o;
                              Store.conflict_property := Some false |}))
      copies objs.
Proof.
  induction elements as [|l elements IH]; intros objs st Hobjs.
  - apply Forall2_nil_inv_l in Hobjs as ->.
    exists [], st. repeat split; auto using NoDup_nil_2.
  - apply Forall2_cons_inv_l in Hobjs as (o & objs' & Ho & Hobjs & ->).
    cbn [Store.map_spread]. unfold Store.bind at 1. unfold Store.read_object.
    rewrite Ho. unfold Store.bind at 1. unfold Store.alloc.
    set (copy := fresh (dom st)).
    assert (Hcopy : st !! copy = None).
    { apply not_elem_of_dom. apply is_fresh. }
    set (st1 := <[copy := _]> st).
    assert (Hframe1 : forall l0 c, st !! l0 = Some c -> st1 !! l0 = Some c).
    { intros l0 c Hc. unfold st1. rewrite lookup_insert_ne; [assumption|congruence]. }
    destruct (IH objs' st1) as (copies & st' & Hrun & Hframe & Hnd & Hall).
    { eapply Forall2_impl; [exact Hobjs|]. intros ? ? ?. now apply Hframe1. }
    unfold Store.bind at 1. rewrite Hrun.
    exists (copy :: copies), st'. split; [reflexivity|].
    assert (Hst1 : st1 !! copy = Some (Store.ObjectCell
               {| Store.properties := Store.properties o;
                  Store.conflict_property := Some false |})).
    { unfold st1. apply lookup_insert_eq. }
    split; [|split].
    + intros l0 c Hc. now apply Hframe, Hframe1.
    + apply NoDup_cons. split; [|assumption].
      intros Hin. apply list_elem_of_lookup in Hin as [k Hk].
      destruct (Forall2_lookup_l _ _ _ _ _ Hall Hk) as (? & _ & Hnone & _).
      congruence.
    + constructor.
      * split; [assumption | now apply Hframe].
      * eapply Forall2_impl; [exact Hall|]. intros l0 o0 [Hn Hs].
        split; [|assumption].
        destruct (st !! l0) as [c|] eqn:E; [|reflexivity].
        apply Hframe1 in E. congruence.
Qed.

(** [detectConflicts] on the store leaves the store it is given as it was and
    adds an array of new objects that hold what [detectConflicts] computes on
    the list of the events. *)
Lemma detectConflicts_represents st eventsForDay elements objs :
  st !! eventsForDay = Some (Store.ArrayCell elements) ->
  Forall2 (fun l o => st !! l = Some (Store.ObjectCell o)) elements objs ->
  exists results copies st',
    Store.detectConflicts eventsForDay st = Some (results, st') /\
    Store.represents st st' results copies
      (detectConflicts (map Store.properties objs)).
Proof.
  intros Harr Hobjs.
  destruct (map_spread_spec elements objs st Hobjs)
    as (copies & st1 & Hrun & Hframe & Hnd & Hall).
  unfold Store.detectConflicts. unfold Store.bind at 1. unfold Store.read_array.
  rewrite Harr. unfold Store.bind at 1. rewrite Hrun.
  unfold Store.bind at 1. unfold Store.alloc.
  set (results := fresh (dom st1)).
  assert (Hres : st1 !! results = None) by (apply not_elem_of_dom, is_fresh).
  set (st2 := <[results := Store.ArrayCell copies]> st1).
  set (annotated := map (fun e => {| event := e; conflict := false |})
                        (map Store.properties objs)).
  assert (R : Store.represents st st2 results copies annotated).
  { split.
    - intros l c Hc. unfold st2.
      rewrite lookup_insert_ne; [now apply Hframe|].
      intros <-. apply Hframe in Hc. congruence.
    - apply lookup_insert_eq.
    - destruct (st !! results) as [c|] eqn:E; [|reflexivity].
      apply Hframe in E. congruence.
    - exact Hnd.
    - intros Hin. apply list_elem_of_In, list_elem_of_lookup in Hin as [k Hk].
      destruct (Forall2_lookup_l _ _ _ _ _ Hall Hk) as (? & _ & _ & Hsome).
      congruence.
    - unfold annotated.
      change (map ?f ?l) with (f <$> l).
      apply Forall2_fmap_r, Forall2_fmap_r.
      eapply Forall2_impl; [exact Hall|]. intros l o [Hn Hs].
      split; [assumption|]. unfold st2.
      rewrite lookup_insert_ne; [exact Hs | congruence]. }
  unfold Store.bind at 1. rewrite (length_of_represents R).
  unfold Store.for_range. rewrite Nat.sub_0_r.
  destruct (outer_loop_represents st results copies (seq 0 (length annotated))
              st2 annotated R) as (st3 & Hloop & R3).
  { apply Forall_forall. intros i Hi. apply elem_of_seq in Hi. lia. }
  unfold Store.bind at 1. rewrite Hloop.
  exists results, copies, st3. split; [reflexivity|].
  unfold detectConflicts, for_range. cbv zeta. rewrite Nat.sub_0_r.
  exact R3.
Qed.

End StoreFacts.

(** * The statements of the specification *)

Import DateFacts StringFacts SearchFacts ConflictFacts IndexFacts StoreFacts.

(** ** Conflict detection *)

Lemma detectConflicts_single e :
  detectConflicts [e] = [{| event := e; conflict := false |}].
Proof. reflexivity. Qed.

(** Two events: both carry the result of the one comparison. *)
Lemma detectConflicts_pair a b :
  detectConflicts [a; b] =
    [{| event := a; conflict := overlaps a b |};
     {| event := b; conflict := overlaps a b |}].
Proof.
  unfold detectConflicts, for_range. cbn [map length seq Nat.sub fold_left].
  unfold outer_body at 2. cbn [lookup list_lookup event startTime durationMinutes].
  unfold for_range. cbn [length Nat.add Nat.sub seq fold_left].
  unfold inner_body. cbn [lookup list_lookup event startTime durationMinutes].
  change (greater _ (Num 0)) with (overlaps a b).
  destruct (overlaps a b); reflexivity.
Qed.

(** An event without duration overlaps nothing. *)
Lemma overlaps_zero_duration a b : durationMinutes a = 0 -> overlaps a b = false.
Proof.
  intros Hz. destruct (overlaps a b) eqn:E; [|reflexivity].
  apply overlaps_true in E as (sa & sb & _ & _ & H). lia.
Qed.

(** An event that starts when another ends does not overlap it. *)
Lemma overlaps_back_to_back a b s :
  start_of a = Num s -> start_of b = Num (s + durationMinutes a) ->
  overlaps a b = false.
Proof.
  intros Ha Hb. destruct (overlaps a b) eqn:E; [|reflexivity].
  apply overlaps_true in E as (sa & sb & Ea & Eb & H).
  rewrite Ha in Ea. rewrite Hb in Eb. injection Ea as <-. injection Eb as <-. lia.
Qed.

(** Two events with the same range of positive length overlap. *)
Lemma overlaps_same_range a b s :
  start_of a = Num s -> start_of b = Num s ->
  durationMinutes a = durationMinutes b -> 0 < durationMinutes a ->
  overlaps a b = true.
Proof.
  intros Ha Hb Hd Hpos. apply overlaps_true. exists s, s.
  repeat split; [assumption..|lia].
Qed.



(** The example of the specification: the first two events are flagged, the
    third is not; an event without duration inside another is not flagged
    either. *)
Example detectConflicts_sample :
  map conflict (detectConflicts [standup; review; lunch]) = [true; true; false] /\
  map conflict (detectConflicts [standup; marker]) = [false; false].
Proof. split; reflexivity. Qed.

(** C8. Conflicts are symmetric: when the events at two different positions
    of the input overlap, so that the first is flagged because of the second,
    the second overlaps the first and both are flagged in the result. *)
Theorem conflict_is_symmetric evs i j a b :
  i <> j -> evs !! i = Some a -> evs !! j = Some b ->
  overlaps a b = true ->
  overlaps b a = true /\
  exists ra rb,
    detectConflicts evs !! i = Some ra /\ detectConflicts evs !! j = Some rb /\
    event ra = a /\ event rb = b /\
    conflict ra = true /\ conflict rb = true.
Proof.
  intros Hne Ha Hb Ho.
  split; [now rewrite overlaps_comm|].
  assert (Hi : exists ra, detectConflicts evs !! i = Some ra /\ event ra = a).
  { pose proof (lookup_map event (detectConflicts evs) i) as E.
    rewrite detectConflicts_events, Ha in E.
    destruct (detectConflicts evs !! i) as [ra|]; [|discriminate].
    exists ra. split; [reflexivity|]. now injection E. }
  assert (Hj : exists rb, detectConflicts evs !! j = Some rb /\ event rb = b).
  { pose proof (lookup_map event (detectConflicts evs) j) as E.
    rewrite detectConflicts_events, Hb in E.
    destruct (detectConflicts evs !! j) as [rb|]; [|discriminate].
    exists rb. split; [reflexivity|]. now injection E. }
  destruct Hi as (ra & Hra & Ea), Hj as (rb & Hrb & Eb).
  exists ra, rb. repeat split; try assumption.
  - apply (detectConflicts_conflict evs i ra Hra). exists j.
    split; [congruence|]. unfold overlaps_at. now rewrite Ha, Hb.
  - apply (detectConflicts_conflict evs j rb Hrb). exists i.
    split; [congruence|]. unfold overlaps_at. now rewrite Ha, Hb, overlaps_comm.
Qed.

Lemma conflict_is_symmetric_witness :
  overlaps review standup = true /\
  exists ra rb,
    detectConflicts [standup; lunch; review] !! 0%nat = Some ra /\
    detectConflicts [standup; lunch; review] !! 2%nat = Some rb /\
    event ra = standup /\ event rb = review /\
    conflict ra = true /\ conflict rb = true.
Proof.
  apply (conflict_is_symmetric [standup; lunch; review] 0 2 standup review);
    [discriminate | reflexivity | reflexivity | reflexivity].
Defined.

(** ** The store *)

(** C9. [detectConflicts] does not change what it is given: called on an
    array of event objects it returns normally, every object and array of the
    store it started from (the input array and the input events among them)
    is as before, and the result is a new array of as many new objects, in
    the order of the input, each with the event properties of the input
    element at its position and a [conflict] flag, the one computed by
    [detectConflicts] on the list of the events. *)
Theorem detectConflicts_preserves_input st eventsForDay elements objs :
  st !! eventsForDay = Some (Store.ArrayCell elements) ->
  Forall2 (fun l o => st !! l = Some (Store.ObjectCell o)) elements objs ->
  exists results copies st',
    Store.detectConflicts eventsForDay st = Some (results, st') /\
    (forall l c, st !! l = Some c -> st' !! l = Some c) /\
    st' !! eventsForDay = Some (Store.ArrayCell elements) /\
    Forall2 (fun l o => st' !! l = Some (Store.ObjectCell o)) elements objs /\
    st !! results = None /\
    st' !! results = Some (Store.ArrayCell copies) /\
    length copies = length elements /\
    Forall2 (fun l o =>
        st !! l = None /\
        exists flag,
          st' !! l = Some (Store.ObjectCell
                             {| Store.properties := Store.properties o;
                                Store.conflict_property := Some flag |}))
      copies objs /\
    Forall2 (fun l a => st' !! l = Some (Store.ObjectCell (Store.object_of a)))
      copies (detectConflicts (map Store.properties objs)).
Proof.
  intros Harr Hobjs.
  destruct (detectConflicts_represents st eventsForDay elements objs Harr Hobjs)
    as (results & copies & st' & Hrun & R).
  exists results, copies, st'.
  pose proof (Store.rep_frame _ _ _ _ _ R) as Hframe.
  pose proof (Store.rep_objects _ _ _ _ _ R) as Hall.
  pose proof (detectConflicts_events (map Store.properties objs)) as Hev.
  assert (Hlen : length copies = length objs).
  { rewrite (rep_length R), detectConflicts_length. apply length_map. }
  repeat split.
  - exact Hrun.
  - exact Hframe.
  - now apply Hframe.
  - eapply Forall2_impl; [exact Hobjs|]. intros l o H. now apply Hframe.
  - exact (Store.rep_array_new _ _ _ _ _ R).
  - exact (Store.rep_array _ _ _ _ _ R).
  - rewrite Hlen. symmetry. eapply Forall2_length, Hobjs.
  - apply Forall2_same_length_lookup. split; [exact Hlen|].
    intros k l o Hl Ho.
    destruct (Forall2_lookup_l _ _ _ _ _ Hall Hl) as (a & Ha & Hn & Hs).
    split; [exact Hn|]. exists (conflict a). rewrite Hs.
    do 2 f_equal. unfold Store.object_of. f_equal.
    pose proof (lookup_map event (detectConflicts (map Store.properties objs)) k) as E.
    rewrite Hev, lookup_map, Ha, Ho in E. simpl in E. congruence.
  - eapply Forall2_impl; [exact Hall|]. now intros l a [_ H].
Qed.

Lemma detectConflicts_preserves_input_witness :
  exists results copies st',
    Store.detectConflicts 2%nat sample_store = Some (results, st') /\
    (forall l c, sample_store !! l = Some c -> st' !! l = Some c) /\
    st' !! 2%nat = Some (Store.ArrayCell [0%nat; 1%nat]) /\
    Forall2 (fun l o => st' !! l = Some (Store.ObjectCell o)) [0%nat; 1%nat]
      [{| Store.properties := standup; Store.conflict_property := None |};
       {| Store.properties := review; Store.conflict_property := None |}] /\
    sample_store !! results = None /\
    st' !! results = Some (Store.ArrayCell copies) /\
    length copies = 2%nat /\
    Forall2 (fun l o =>
        sample_store !! l = None /\
        exists flag,
          st' !! l = Some (Store.ObjectCell
                             {| Store.properties := Store.properties o;
                                Store.conflict_property := Some flag |}))
      copies
      [{| Store.properties := standup; Store.conflict_property := None |};
       {| Store.properties := review; Store.conflict_property := None |}] /\
    Forall2 (fun l a => st' !! l = Some (Store.ObjectCell (Store.object_of a)))
      copies (detectConflicts [standup; review]).
Proof.
  apply (detectConflicts_preserves_input sample_store 2%nat [0%nat; 1%nat]
           [{| Store.properties := standup; Store.conflict_property := None |};
            {| Store.properties := review; Store.conflict_property := None |}]).
  - reflexivity.
  - repeat constructor.
Defined.

(** The run on the sample store: the copies get the two references after the
    ones in use, the result array the next one. *)
Example detectConflicts_sample_store :
  exists st',
    Store.detectConflicts 2%nat sample_store = Some (5%nat, st') /\
    st' !! 5%nat = Some (Store.ArrayCell [3%nat; 4%nat]) /\
    st' !! 3%nat = Some (Store.ObjectCell
      {| Store.properties := standup; Store.conflict_property := Some true |}) /\
    st' !! 0%nat = Some (Store.ObjectCell
      {| Store.properties := standup; Store.conflict_property := None |}).
Proof. eexists. split; [vm_compute; reflexivity|]. repeat split. Qed.

(** ** The event index *)

(** C6. For a list of events and a key, none of them a name that objects
    inherit (no [YYYY-MM-DD] date key is one, [date_key_not_inherited]),
    [groupEventsByDate] returns an index, and looking a key up in it gives the
    events of the list with that date, in the order of the list: the empty
    array when there is none, and an array that contains the event when the
    key is the date of an event of the list. *)
Theorem lookup_groupEventsByDate events key :
  (forall e, In e events -> inherited (date e) = false) ->
  inherited key = false ->
  exists index,
    groupEventsByDate events = Some index /\
    lookup_events index key = Own (events_on key events) /\
    ((forall e, In e events -> date e <> key) -> lookup_events index key = Own []) /\
    (forall e, In e events ->
       exists found, lookup_events index (date e) = Own found /\ In e found).
Proof.
  intros Hev Hkey.
  destruct (groupEventsByDate_lookup events Hev) as (index & Hrun & L).
  exists index. split; [exact Hrun|].
  split; [now apply L|]. split.
  - intros Habsent. rewrite (L key Hkey). now rewrite events_on_absent.
  - intros e He. exists (events_on (date e) events).
    split; [apply L, Hev, He|]. now apply In_events_on.
Qed.

Lemma lookup_groupEventsByDate_witness :
  exists index,
    groupEventsByDate [standup; retro; review] = Some index /\
    lookup_events index "2025-06-15" = Own [standup; review] /\
    ((forall e, In e [standup; retro; review] -> date e <> "2025-06-15") ->
     lookup_events index "2025-06-15" = Own []) /\
    (forall e, In e [standup; retro; review] ->
       exists found, lookup_events index (date e) = Own found /\ In e found).
Proof.
  apply (lookup_groupEventsByDate [standup; retro; review] "2025-06-15").
  - intros e [<- | [<- | [<- | []]]]; reflexivity.
  - reflexivity.
Defined.

(** A date without events gives the empty array; an event whose date is an
    inherited name makes [groupEventsByDate] throw. *)
Example lookup_events_sample :
  (exists index,
     groupEventsByDate [standup; retro; review] = Some index /\
     lookup_events index "2025-06-17" = Own [] /\
     lookup_events index "2025-06-16" = Own [retro]) /\
  groupEventsByDate [sample_event 8 "constructor" "09:00" "10:00" 60] = None.
Proof.
  split; [|reflexivity].
  destruct (groupEventsByDate_lookup [standup; retro; review])
    as (index & Hrun & L); [intros e [<- | [<- | [<- | []]]]; reflexivity |].
  exists index. split; [exact Hrun|].
  split; [exact (L "2025-06-17" eq_refl) | exact (L "2025-06-16" eq_refl)].
Qed.

(** ** The date search *)

(** C2 (as the code has it). A text with neither a slash nor a hyphen fails
    with [InvalidFormat]. *)
Theorem no_separator_is_InvalidFormat searchDate :
  includes "/" searchDate = false -> includes "-" searchDate = false ->
  parseSearchInput searchDate = Thrown InvalidFormat.
Proof. intros H1 H2. now apply InvalidFormat_iff. Qed.

Lemma no_separator_is_InvalidFormat_witness :
  parseSearchInput "June 15 2025" = Thrown InvalidFormat.
Proof.
  apply (no_separator_is_InvalidFormat "June 15 2025"); reflexivity.
Defined.

(** C2 (as stated) fails: a text of neither shape that has a separator is not
    rejected for its format.  ["6/15x/2025"] is of neither shape and resolves
    to 15 June 2025, and ["not-a-date"] is reported as a day that does not
    exist in its month. *)
Lemma other_shapes_not_InvalidFormat :
  shape_MM_DD_YYYY "6/15x/2025" = false /\
  shape_YYYY_MM_DD "6/15x/2025" = false /\
  parseSearchInput "6/15x/2025" = Resolved (DateValue 20254) /\
  shape_MM_DD_YYYY "not-a-date" = false /\
  shape_YYYY_MM_DD "not-a-date" = false /\
  parseSearchInput "not-a-date" = Thrown InvalidDayForMonth.
Proof. repeat split. Qed.

(** C3. The code at texts with a piece that is not a number: the error is the
    one of a day that does not exist in its month, or the one of an earlier
    range check, never [InvalidFormat]. *)
Theorem non_numeric_piece_outcome :
  parseSearchInput "ab/cd/ef" = Thrown InvalidDayForMonth /\
  parseSearchInput "06/xx/2025" = Thrown InvalidDayForMonth /\
  parseSearchInput "2025-xx-15" = Thrown InvalidDayForMonth /\
  parseSearchInput "13/xx/2025" = Thrown InvalidMonth.
Proof. repeat split. Qed.

(** In general: when one of the three numbers is [NaN], the error is one of
    the four errors of [validate]. *)
Lemma NaN_field_outcome searchDate monthNum dayNum yearNum :
  search_fields searchDate = Some (monthNum, dayNum, yearNum) ->
  monthNum = NaN \/ dayNum = NaN \/ yearNum = NaN ->
  parseSearchInput searchDate = Thrown InvalidMonth \/
  parseSearchInput searchDate = Thrown InvalidDay \/
  parseSearchInput searchDate = Thrown InvalidYear \/
  parseSearchInput searchDate = Thrown InvalidDayForMonth.
Proof.
  intros E H. rewrite (parseSearchInput_fields _ _ _ _ E).
  now apply validate_NaN.
Qed.

(** C4. When the three numbers of the text pass the range checks and the day
    is past the end of the month, the date built falls in the following
    month, its month differs from the one typed, and the search fails with
    [InvalidDayForMonth]. *)
Theorem day_overflow_is_InvalidDayForMonth searchDate m d y :
  search_fields searchDate = Some (Num m, Num d, Num y) ->
  1 <= m <= 12 -> 1 <= d <= 31 -> 1900 <= y <= 9999 ->
  days_in_month y m < d ->
  getMonth (new_Date (Num y) (sub (Num m) (Num 1)) (Num d)) = Num m /\
  strict_neq (getMonth (new_Date (Num y) (sub (Num m) (Num 1)) (Num d)))
             (sub (Num m) (Num 1)) = true /\
  parseSearchInput searchDate = Thrown InvalidDayForMonth.
Proof.
  intros E Hm Hd Hy Hover.
  assert (Hmonth : getMonth (new_Date (Num y) (sub (Num m) (Num 1)) (Num d)) = Num m).
  { cbn [sub]. rewrite new_Date_in_range by lia. cbn [getMonth].
    rewrite MonthFromDay_MakeDay by lia.
    destruct (Z.leb_spec d (days_in_month y m)); [lia|reflexivity]. }
  split; [exact Hmonth|]. split.
  - rewrite Hmonth. simpl. destruct (Z.eqb_spec m (m - 1)); [lia|reflexivity].
  - rewrite (parseSearchInput_fields _ _ _ _ E), validate_numbers.
    destruct (Z.ltb_spec m 1); [lia|]. destruct (Z.ltb_spec 12 m); [lia|].
    destruct (Z.ltb_spec d 1); [lia|]. destruct (Z.ltb_spec 31 d); [lia|].
    destruct (Z.ltb_spec y 1900); [lia|]. destruct (Z.ltb_spec 9999 y); [lia|].
    destruct (Z.leb_spec d (days_in_month y m)); [lia|reflexivity].
Qed.

Lemma day_overflow_is_InvalidDayForMonth_witness :
  getMonth (new_Date (Num 2025) (sub (Num 2) (Num 1)) (Num 31)) = Num 2 /\
  strict_neq (getMonth (new_Date (Num 2025) (sub (Num 2) (Num 1)) (Num 31)))
             (sub (Num 2) (Num 1)) = true /\
  parseSearchInput "02/31/2025" = Thrown InvalidDayForMonth.
Proof.
  apply (day_overflow_is_InvalidDayForMonth "02/31/2025" 2 31 2025);
    [reflexivity | lia | lia | lia | reflexivity].
Defined.

(** C5. When the three pieces of the text are numbers, the range checks run
    in the order month, day, year, and the first one violated gives the
    error: a month outside 1..12 gives [InvalidMonth] whatever the day and the
    year; with the month in range, a day outside 1..31 gives [InvalidDay]
    whatever the year; with both in range, a year outside 1900..9999 gives
    [InvalidYear]. *)
Theorem range_checks_in_order searchDate m d y :
  search_fields searchDate = Some (Num m, Num d, Num y) ->
  (m < 1 \/ 12 < m -> parseSearchInput searchDate = Thrown InvalidMonth) /\
  (1 <= m <= 12 -> d < 1 \/ 31 < d ->
   parseSearchInput searchDate = Thrown InvalidDay) /\
  (1 <= m <= 12 -> 1 <= d <= 31 -> y < 1900 \/ 9999 < y ->
   parseSearchInput searchDate = Thrown InvalidYear).
Proof.
  intros E. rewrite (parseSearchInput_fields _ _ _ _ E), validate_numbers.
  repeat split; intros;
    repeat match goal with
           | |- context [?a <? ?b] => destruct (Z.ltb_spec a b); try lia
           end; reflexivity.
Qed.

Lemma range_checks_in_order_witness :
  parseSearchInput "13/01/2025" = Thrown InvalidMonth /\
  parseSearchInput "13/45/0" = Thrown InvalidMonth /\
  parseSearchInput "12/45/0" = Thrown InvalidDay /\
  parseSearchInput "1800-12-31" = Thrown InvalidYear.
Proof.
  split; [|split; [|split]].
  - apply (proj1 (range_checks_in_order "13/01/2025" 13 1 2025 eq_refl)). lia.
  - apply (proj1 (range_checks_in_order "13/45/0" 13 45 0 eq_refl)). lia.
  - apply (proj1 (proj2 (range_checks_in_order "12/45/0" 12 45 0 eq_refl))); lia.
  - apply (proj2 (proj2 (range_checks_in_order "1800-12-31" 12 31 1800 eq_refl))); lia.
Defined.

(** C7. The [MM/DD/YYYY] and the [YYYY-MM-DD] rendering of the same month, day
    and year resolve to the same date whenever both resolve. *)
Theorem format_independence (m d y : N) date1 date2 :
  parseSearchInput (render_MM_DD_YYYY m d y) = Resolved date1 ->
  parseSearchInput (render_YYYY_MM_DD m d y) = Resolved date2 ->
  date1 = date2.
Proof. intros H1 H2. rewrite renderings_agree in H1. congruence. Qed.

Lemma format_independence_witness :
  render_MM_DD_YYYY 6 15 2025 = "06/15/2025" /\
  render_YYYY_MM_DD 6 15 2025 = "2025-06-15" /\
  parseSearchInput "06/15/2025" = Resolved (DateValue 20254) /\
  parseSearchInput "2025-06-15" = Resolved (DateValue 20254) /\
  DateValue 20254 = DateValue 20254.
Proof.
  do 4 (split; [reflexivity|]).
  apply (format_independence 6%N 15%N 2025%N (DateValue 20254) (DateValue 20254));
    reflexivity.
Defined.

(** Both renderings of a date that exists resolve, to that date. *)
Lemma renderings_resolve (m d y : N) :
  let date := DateValue (MakeDay (Z.of_N y) (Z.of_N m - 1) (Z.of_N d)) in
  1 <= Z.of_N m <= 12 -> 1900 <= Z.of_N y <= 9999 ->
  1 <= Z.of_N d <= days_in_month (Z.of_N y) (Z.of_N m) ->
  parseSearchInput (render_MM_DD_YYYY m d y) = Resolved date /\
  parseSearchInput (render_YYYY_MM_DD m d y) = Resolved date /\
  getMonth date = Num (Z.of_N m - 1) /\
  getDate date = Num (Z.of_N d) /\
  getFullYear date = Num (Z.of_N y).
Proof.
  intros date Hm Hy Hd. subst date.
  pose proof (days_in_month_le (Z.of_N y) (Z.of_N m)).
  rewrite <- renderings_agree, rendering_resolves by assumption.
  repeat split; cbn [getMonth getDate getFullYear]; f_equal.
  - rewrite MonthFromDay_MakeDay by lia.
    destruct (Z.leb_spec (Z.of_N d) (days_in_month (Z.of_N y) (Z.of_N m)));
      [reflexivity|lia].
  - now apply DateFromDay_MakeDay.
  - apply MakeDay_in_year; lia.
Qed.



(** The search for 15 June 2025 on the sample events. *)
Example handleSearch_sample :
  forall index, groupEventsByDate [standup; retro; review] = Some index ->
  handleSearch index (typing "2025-06-15") =
    {| currentMonth := DateValue 20254;
       selectedDate := Some (DateValue 20254);
       selectedEvents := Own [standup; review];
       searchDate := "2025-06-15";
       searchResult := Some "Sunday, June 15, 2025" |} /\
  searchResult (handleSearch index (typing "02/31/2025")) =
    Some "Invalid date for the given month" /\
  searchResult (handleSearch index (typing "not-a-date")) =
    Some "Invalid date for the given month" /\
  searchResult (handleSearch index (typing "tomorrow")) =
    Some "Invalid date format".
Proof.
  intros index Hrun.
  destruct (groupEventsByDate_lookup [standup; retro; review])
    as (index' & Hrun' & L); [intros e [<- | [<- | [<- | []]]]; reflexivity |].
  rewrite Hrun in Hrun'. injection Hrun' as <-.
  pose proof (L "2025-06-15" eq_refl) as Hday.
  repeat split. unfold handleSearch. cbn [typing searchDate].
  change (parseSearchInput "2025-06-15") with (Resolved (DateValue 20254)).
  cbv iota beta. f_equal. exact Hday.
Qed.

(** * Further properties of the component *)

(** ** Days, months and years of any day number *)
Module CalendarFacts.

(** The search stops at a year that holds the day when it starts at or
    below it and the fuel reaches past it. *)
Lemma year_search_bounds fuel : forall y0 yu day,
  DayFromYear y0 <= day < DayFromYear yu ->
  yu - y0 <= Z.of_nat fuel ->
  DayFromYear (year_search fuel y0 day) <= day
    < DayFromYear (year_search fuel y0 day + 1).
Proof.
  induction fuel as [|fuel IH]; intros y0 yu day Hd Hfuel.
  - assert (y0 < yu) by (apply DayFromYear_lt_inv; lia). lia.
  - simpl. destruct (Z.leb_spec (DayFromYear (y0 + 1)) day).
    + apply (IH (y0 + 1) yu); lia.
    + lia.
Qed.

(** Every day lies in the year [YearFromDay] gives. *)
Lemma YearFromDay_bounds day :
  DayFromYear (YearFromDay day) <= day < DayFromYear (YearFromDay day + 1).
Proof.
  unfold YearFromDay. pose proof DayFromYear_1970 as E0.
  destruct (Z.leb_spec 0 day) as [Hs|Hs].
  - pose proof (DayFromYear_span 1970 (day / 366) ltac:(apply Z.div_pos; lia)) as S0.
    pose proof (DayFromYear_span 1970 (day / 365 + 1)
                  ltac:(pose proof (Z.div_pos day 365); lia)) as S1.
    apply (year_search_bounds _ _ (1970 + (day / 365 + 1))).
    + pose proof (Z.mul_div_le day 366 ltac:(lia)).
      pose proof (Z.mul_succ_div_gt day 365 ltac:(lia)). lia.
    + rewrite Z2Nat.id by (pose proof (Z.div_pos (Z.abs day) 100000); lia).
      rewrite Z.abs_eq by lia.
      Z.to_euclidean_division_equations; lia.
  - assert (Hq : day / 365 < 0) by (apply Z.div_lt_upper_bound; lia).
    assert (Hq' : day / 366 < 0) by (apply Z.div_lt_upper_bound; lia).
    pose proof (DayFromYear_span (1970 + day / 365) (- (day / 365)) ltac:(lia)) as S0.
    replace (1970 + day / 365 + - (day / 365)) with 1970 in S0 by lia.
    pose proof (DayFromYear_span (1970 + (day / 366 + 1)) (- (day / 366 + 1))
                  ltac:(lia)) as S1.
    replace (1970 + (day / 366 + 1) + - (day / 366 + 1)) with 1970 in S1 by lia.
    apply (year_search_bounds _ _ (1970 + (day / 366 + 1))).
    + pose proof (Z.mul_div_le day 365 ltac:(lia)).
      pose proof (Z.mul_succ_div_gt day 366 ltac:(lia)). lia.
    + rewrite Z2Nat.id by (pose proof (Z.div_pos (Z.abs day) 100000); lia).
      rewrite Z.abs_neq by lia.
      Z.to_euclidean_division_equations; lia.
Qed.

Lemma DayWithinYear_range day :
  0 <= DayWithinYear day < 365 + InLeapYear day.
Proof.
  unfold DayWithinYear, InLeapYear.
  pose proof (YearFromDay_bounds day) as H.
  rewrite DayFromYear_succ, DaysInYear_leap_day in H. lia.
Qed.

Lemma MonthFromDay_range day : 0 <= MonthFromDay day <= 11.
Proof.
  unfold MonthFromDay.
  repeat match goal with
         | |- context [?a <? ?b] => destruct (Z.ltb_spec a b); try lia
         end.
Qed.

(** The day of the month of any day is one of its month. *)
Lemma DateFromDay_range day :
  1 <= DateFromDay day <= days_in_month (YearFromDay day) (MonthFromDay day + 1).
Proof.
  pose proof (DayWithinYear_range day) as Hw.
  unfold DateFromDay, days_in_month, MonthFromDay, InLeapYear in *.
  destruct (leap_day_cases (YearFromDay day)) as [L|L]; rewrite L in *;
    repeat match goal with
           | |- context [?a <? ?b] => destruct (Z.ltb_spec a b)
           end; simpl; lia.
Qed.

(** A day is the day its own year, month and day of the month make; hence
    [MakeDay] with another day of the month moves by the difference. *)
Lemma MakeDay_fields day n :
  MakeDay (YearFromDay day) (MonthFromDay day) n = day + n - DateFromDay day.
Proof.
  pose proof (MonthFromDay_range day) as Hm.
  unfold MakeDay. rewrite Z.div_small, Z.mod_small by lia.
  rewrite Z.add_0_r. unfold DateFromDay, DayWithinYear, InLeapYear. lia.
Qed.

(** The fields of a day made from a month and a day of that month. *)
Lemma fields_MakeDay y m d :
  0 <= m <= 11 -> 1 <= d <= days_in_month y (m + 1) ->
  YearFromDay (MakeDay y m d) = y /\
  MonthFromDay (MakeDay y m d) = m /\
  DateFromDay (MakeDay y m d) = d.
Proof.
  intros Hm Hd. pose proof (days_in_month_le y (m + 1)).
  pose proof (MonthFromDay_MakeDay y (m + 1) d ltac:(lia) ltac:(lia)) as HM.
  pose proof (DateFromDay_MakeDay y (m + 1) d ltac:(lia) Hd) as HD.
  replace (m + 1 - 1) with m in * by lia.
  destruct (Z.leb_spec d (days_in_month y (m + 1))); [|lia].
  split; [|split]; [|assumption..].
  apply MakeDay_in_year; lia.
Qed.

(** Months beyond 0..11 are months of other years. *)
Lemma MakeDay_normalize y m d : MakeDay y m d = MakeDay (y + m / 12) (m mod 12) d.
Proof.
  unfold MakeDay.
  rewrite Z.mod_mod by lia.
  rewrite (Z.div_small (m mod 12) 12) by (apply Z.mod_pos_bound; lia).
  now rewrite Z.add_0_r.
Qed.

(** The first day of a month is the first day of the month before plus the
    length of that month. *)
Lemma MakeDay_next_month y m :
  0 <= m <= 11 ->
  MakeDay y (m + 1) 1 = MakeDay y m 1 + days_in_month y (m + 1).
Proof.
  intros Hm. destruct (Z.eq_dec m 11) as [->|Hne].
  - rewrite (MakeDay_normalize y (11 + 1)). change ((11 + 1) / 12) with 1.
    change ((11 + 1) mod 12) with 0.
    unfold MakeDay. simpl Z.div. simpl Z.modulo. rewrite !Z.add_0_r.
    rewrite DayFromYear_succ, DaysInYear_leap_day.
    unfold days_in_month. simpl.
    destruct (leap_day_cases y) as [L|L]; rewrite L; simpl; lia.
  - unfold MakeDay.
    rewrite !Z.div_small, !Z.mod_small by lia. rewrite !Z.add_0_r.
    unfold days_in_month.
    destruct (leap_day_cases y) as [L|L]; rewrite L;
      month_cases m; simpl; lia.
Qed.

Lemma MakeDay_date y m d d' : MakeDay y m d' = MakeDay y m d + (d' - d).
Proof. unfold MakeDay. lia. Qed.

End CalendarFacts.

(** ** Local times and the functions of [date-fns] *)
Module DateFnsFacts.
Import CalendarFacts.

Lemma TimeWithinDay_range t : 0 <= DateFns.TimeWithinDay t < DateFns.msPerDay.
Proof. unfold DateFns.TimeWithinDay. apply Z.mod_pos_bound. reflexivity. Qed.

Lemma MakeDate_Day t : DateFns.MakeDate (DateFns.Day t) (DateFns.TimeWithinDay t) = t.
Proof.
  unfold DateFns.MakeDate, DateFns.Day, DateFns.TimeWithinDay.
  pose proof (Z.div_mod t DateFns.msPerDay ltac:(discriminate)). lia.
Qed.

Lemma Day_MakeDate day time :
  0 <= time < DateFns.msPerDay ->
  DateFns.Day (DateFns.MakeDate day time) = day /\
  DateFns.TimeWithinDay (DateFns.MakeDate day time) = time.
Proof.
  intros Ht. unfold DateFns.Day, DateFns.TimeWithinDay, DateFns.MakeDate.
  rewrite Z.add_comm.
  rewrite Z.div_add, Z.mod_add by discriminate.
  rewrite Z.div_small, Z.mod_small by assumption. lia.
Qed.

(** [setDate] moves by whole days and keeps the time of day. *)
Lemma setDate_spec t date :
  DateFns.setDate t date =
    DateFns.MakeDate (DateFns.Day t + date - DateFns.getDate t) (DateFns.TimeWithinDay t).
Proof.
  unfold DateFns.setDate, DateFns.getFullYear, DateFns.getMonth, DateFns.getDate.
  now rewrite MakeDay_fields.
Qed.

Lemma Day_setDate t date :
  DateFns.Day (DateFns.setDate t date) = DateFns.Day t + date - DateFns.getDate t /\
  DateFns.TimeWithinDay (DateFns.setDate t date) = DateFns.TimeWithinDay t.
Proof. rewrite setDate_spec. apply Day_MakeDate, TimeWithinDay_range. Qed.

(** [addDays] adds that many days of 24 hours. *)
Lemma addDays_spec t amount :
  DateFns.addDays t amount = t + amount * DateFns.msPerDay.
Proof.
  unfold DateFns.addDays. destruct (Z.eqb_spec amount 0) as [->|_]; [lia|].
  rewrite setDate_spec. pose proof (MakeDate_Day t) as E.
  unfold DateFns.MakeDate in *. lia.
Qed.

Lemma startOfMonth_spec t :
  DateFns.startOfMonth t =
    DateFns.MakeDate (DateFns.Day t + 1 - DateFns.getDate t) 0.
Proof.
  unfold DateFns.startOfMonth, DateFns.setHours.
  now destruct (Day_setDate t 1) as [-> _].
Qed.

Lemma midnight day :
  DateFns.Day (DateFns.MakeDate day 0) = day /\
  DateFns.TimeWithinDay (DateFns.MakeDate day 0) = 0.
Proof. apply Day_MakeDate. split; [lia | reflexivity]. Qed.

Lemma last_ms day :
  DateFns.Day (DateFns.MakeDate day (DateFns.MakeTime 23 59 59 999)) = day.
Proof. apply Day_MakeDate. split; [discriminate | reflexivity]. Qed.

(** The first of the month of [t], as a day number, and its fields. *)
Lemma first_of_month t :
  let first := DateFns.Day t + 1 - DateFns.getDate t in
  first = MakeDay (DateFns.getFullYear t) (DateFns.getMonth t) 1 /\
  YearFromDay first = DateFns.getFullYear t /\
  MonthFromDay first = DateFns.getMonth t /\
  DateFromDay first = 1.
Proof.
  intros first.
  assert (E : first = MakeDay (DateFns.getFullYear t) (DateFns.getMonth t) 1).
  { unfold first, DateFns.getFullYear, DateFns.getMonth, DateFns.getDate.
    rewrite MakeDay_fields. lia. }
  split; [exact E|]. rewrite E.
  apply fields_MakeDay; [apply MonthFromDay_range|].
  pose proof (DateFromDay_range (DateFns.Day t)).
  unfold DateFns.getFullYear, DateFns.getMonth. lia.
Qed.

(** The days of the month of [t] are the days from its first on, as many as
    the month is long. *)
Lemma same_month_iff t d :
  let first := DateFns.Day t + 1 - DateFns.getDate t in
  let len := days_in_month (DateFns.getFullYear t) (DateFns.getMonth t + 1) in
  (YearFromDay d = DateFns.getFullYear t /\ MonthFromDay d = DateFns.getMonth t)
  <-> first <= d < first + len.
Proof.
  intros first len. destruct (first_of_month t) as (E & _).
  fold first in E. split.
  - intros [Hy Hm]. pose proof (DateFromDay_range d) as Hd.
    pose proof (MakeDay_fields d 1) as F. rewrite Hy, Hm in F, Hd.
    rewrite <- E in F. unfold len. lia.
  - intros Hd.
    assert (Ed : d = MakeDay (DateFns.getFullYear t) (DateFns.getMonth t) (d - first + 1)).
    { rewrite (MakeDay_date _ _ 1), <- E. lia. }
    rewrite Ed.
    destruct (fields_MakeDay (DateFns.getFullYear t) (DateFns.getMonth t) (d - first + 1))
      as (Hy & Hm & _).
    + apply MonthFromDay_range.
    + fold len. lia.
    + now split.
Qed.

Lemma endOfMonth_spec t :
  DateFns.endOfMonth t =
    DateFns.MakeDate
      (DateFns.Day t - DateFns.getDate t
       + days_in_month (DateFns.getFullYear t) (DateFns.getMonth t + 1))
      (DateFns.MakeTime 23 59 59 999).
Proof.
  unfold DateFns.endOfMonth, DateFns.setHours, DateFns.setFullYear.
  destruct (Day_MakeDate
              (MakeDay (DateFns.getFullYear t) (DateFns.getMonth t + 1) 0)
              (DateFns.TimeWithinDay t) (TimeWithinDay_range t)) as [-> _].
  f_equal.
  rewrite (MakeDay_date _ _ 1 0).
  rewrite MakeDay_next_month by apply MonthFromDay_range.
  destruct (first_of_month t) as (<- & _). lia.
Qed.

Lemma startOfWeek_spec t :
  DateFns.startOfWeek 1 t =
    DateFns.MakeDate (DateFns.Day t - (DateFns.getDay t + 6) mod 7) 0.
Proof.
  unfold DateFns.startOfWeek, DateFns.setHours.
  destruct (Day_setDate t (DateFns.getDate t -
      ((if DateFns.getDay t <? 1 then 7 else 0) + DateFns.getDay t - 1))) as [-> _].
  f_equal. unfold DateFns.getDay, WeekDay.
  pose proof (Z.mod_pos_bound (DateFns.Day t + 4) 7 ltac:(lia)).
  destruct (Z.ltb_spec ((DateFns.Day t + 4) mod 7) 1);
    Z.to_euclidean_division_equations; lia.
Qed.

Lemma endOfWeek_spec t :
  DateFns.endOfWeek 1 t =
    DateFns.MakeDate (DateFns.Day t + (7 - DateFns.getDay t) mod 7)
      (DateFns.MakeTime 23 59 59 999).
Proof.
  unfold DateFns.endOfWeek, DateFns.setHours.
  destruct (Day_setDate t (DateFns.getDate t +
      ((if DateFns.getDay t <? 1 then -7 else 0) + 6 - (DateFns.getDay t - 1)))) as [-> _].
  f_equal. unfold DateFns.getDay, WeekDay.
  pose proof (Z.mod_pos_bound (DateFns.Day t + 4) 7 ltac:(lia)).
  destruct (Z.ltb_spec ((DateFns.Day t + 4) mod 7) 1);
    Z.to_euclidean_division_equations; lia.
Qed.

End DateFnsFacts.

(** ** The month grid *)
Module GridFacts.
Import CalendarFacts DateFnsFacts.

(** The inner loop pushes a day and its six successors. *)
Lemma week_days_spec t :
  week_days 7 [] t =
    (map (fun j => DateFns.addDays t (Z.of_nat j)) (seq 0 7),
     DateFns.addDays t 7).
Proof.
  cbn [week_days app map seq]. rewrite !addDays_spec.
  apply f_equal2; [|lia].
  repeat (apply (f_equal2 cons); [lia|]). reflexivity.
Qed.

Lemma grid_of_S startDate weeks :
  grid_of startDate (S weeks) =
    map (fun j => DateFns.addDays startDate (Z.of_nat j)) (seq 0 7)
    :: grid_of (DateFns.addDays startDate 7) weeks.
Proof.
  unfold grid_of. cbn [seq map]. apply f_equal2.
  - repeat (apply (f_equal2 cons); [rewrite !addDays_spec; lia|]). reflexivity.
  - rewrite <- seq_shift, map_map. apply map_ext. intros i.
    repeat (apply (f_equal2 cons); [rewrite !addDays_spec; lia|]). reflexivity.
Qed.

(** The outer loop builds one row per week that starts on or before
    [endDate], whatever fuel is left over. *)
Lemma grid_rows_spec weeks : forall fuel rows t endDate,
  (weeks <= fuel)%nat ->
  (forall i, 0 <= i < Z.of_nat weeks -> DateFns.addDays t (7 * i) <= endDate) ->
  endDate < DateFns.addDays t (7 * Z.of_nat weeks) ->
  grid_rows fuel rows t endDate = rows ++ grid_of t weeks.
Proof.
  induction weeks as [|weeks IH]; intros fuel rows t endDate Hfuel Hin Hout.
  - rewrite addDays_spec in Hout. rewrite app_nil_r.
    destruct fuel as [|fuel]; [reflexivity|]. simpl.
    destruct (Z.leb_spec t endDate); [lia|reflexivity].
  - destruct fuel as [|fuel]; [lia|]. cbn [grid_rows].
    pose proof (Hin 0 ltac:(lia)) as H0. rewrite addDays_spec in H0.
    destruct (Z.leb_spec t endDate); [|lia].
    rewrite week_days_spec, grid_of_S.
    rewrite (IH fuel _ (DateFns.addDays t 7) endDate).
    + now rewrite <- app_assoc.
    + lia.
    + intros i Hi. specialize (Hin (i + 1) ltac:(lia)).
      rewrite !addDays_spec in *. lia.
    + rewrite !addDays_spec in *. lia.
Qed.

(** The four dates the grid is computed from, as day numbers. *)
Lemma grid_bounds currentMonth :
  let monthStart := DateFns.startOfMonth currentMonth in
  let monthEnd := DateFns.endOfMonth monthStart in
  let startDate := DateFns.startOfWeek 1 monthStart in
  let endDate := DateFns.endOfWeek 1 monthEnd in
  let first := DateFns.Day currentMonth + 1 - DateFns.getDate currentMonth in
  let len := days_in_month (DateFns.getFullYear currentMonth)
                           (DateFns.getMonth currentMonth + 1) in
  let last := first + len - 1 in
  monthStart = DateFns.MakeDate first 0 /\
  startDate = DateFns.MakeDate (first - (WeekDay first + 6) mod 7) 0 /\
  endDate = DateFns.MakeDate (last + (7 - WeekDay last) mod 7)
              (DateFns.MakeTime 23 59 59 999).
Proof.
  intros monthStart monthEnd startDate endDate first len last.
  destruct (first_of_month currentMonth) as (_ & Hy & Hm & Hd).
  fold first in Hy, Hm, Hd.
  assert (Ems : monthStart = DateFns.MakeDate first 0)
    by apply startOfMonth_spec.
  destruct (midnight first) as [Dms Tms].
  assert (Eme : monthEnd = DateFns.MakeDate last (DateFns.MakeTime 23 59 59 999)).
  { unfold monthEnd. rewrite endOfMonth_spec.
    unfold DateFns.getDate, DateFns.getFullYear, DateFns.getMonth.
    rewrite Ems, Dms, Hy, Hm, Hd. f_equal. unfold last, len. lia. }
  split; [exact Ems|]. split.
  - unfold startDate. rewrite startOfWeek_spec. unfold DateFns.getDay.
    now rewrite Ems, Dms.
  - unfold endDate. rewrite endOfWeek_spec. unfold DateFns.getDay.
    now rewrite Eme, last_ms.
Qed.

Lemma days_in_month_ge y m : 28 <= days_in_month y m.
Proof.
  unfold days_in_month. destruct (leap_day_cases y) as [L|L]; rewrite L;
    destruct (m =? 2); [lia| |lia|]; destruct (_ || _); lia.
Qed.

(** The grid is the grid of whole weeks from the Monday on or before the
    first of the month to the Sunday on or after its last day. *)
Lemma calendar_rows_spec fuel currentMonth :
  (6 <= fuel)%nat ->
  let first := DateFns.Day currentMonth + 1 - DateFns.getDate currentMonth in
  let len := days_in_month (DateFns.getFullYear currentMonth)
                           (DateFns.getMonth currentMonth + 1) in
  let before := (WeekDay first + 6) mod 7 in
  let after := (7 - WeekDay (first + len - 1)) mod 7 in
  exists weeks : nat,
    7 * Z.of_nat weeks = before + len + after /\
    calendar_rows fuel currentMonth =
      grid_of (DateFns.MakeDate (first - before) 0) weeks.
Proof.
  intros Hfuel first len before after.
  destruct (grid_bounds currentMonth) as (_ & Es & Ee).
  fold first len in Es, Ee. fold before in Es. fold after in Ee.
  pose proof (days_in_month_le (DateFns.getFullYear currentMonth)
                (DateFns.getMonth currentMonth + 1)) as Hle.
  pose proof (days_in_month_ge (DateFns.getFullYear currentMonth)
                (DateFns.getMonth currentMonth + 1)) as Hge.
  fold len in Hle, Hge.
  assert (Hb : 0 <= before < 7) by (apply Z.mod_pos_bound; lia).
  assert (Ha : 0 <= after < 7) by (apply Z.mod_pos_bound; lia).
  assert (Hdiv : (before + len + after) mod 7 = 0).
  { unfold before, after, WeekDay.
    Z.to_euclidean_division_equations; lia. }
  exists (Z.to_nat ((before + len + after) / 7)).
  assert (Hw : 7 * Z.of_nat (Z.to_nat ((before + len + after) / 7))
               = before + len + after).
  { rewrite Z2Nat.id by (apply Z.div_pos; lia).
    pose proof (Z.div_mod (before + len + after) 7 ltac:(lia)). lia. }
  split; [exact Hw|].
  unfold calendar_rows. rewrite Es, Ee.
  rewrite (grid_rows_spec (Z.to_nat ((before + len + after) / 7))); [reflexivity|..].
  - assert (before + len + after <= 43) by lia. lia.
  - intros i Hi. rewrite addDays_spec.
    unfold DateFns.MakeDate, DateFns.MakeTime, DateFns.msPerDay. lia.
  - rewrite addDays_spec.
    unfold DateFns.MakeDate, DateFns.MakeTime, DateFns.msPerDay. lia.
Qed.

End GridFacts.

(** ** More on the event index *)
Module IndexMore.

Lemma group_event_inherited map e :
  own_keys_plain map -> inherited (date e) = true -> group_event map e = None.
Proof.
  intros Hmap Hd. unfold group_event. cbv zeta. unfold get.
  rewrite (Hmap _ Hd), Hd. cbn [truthy negb]. now rewrite (Hmap _ Hd).
Qed.

Lemma own_keys_plain_insert map key events :
  own_keys_plain map -> inherited key = false ->
  own_keys_plain (<[key := events]> map).
Proof.
  intros Hmap Hk key' Hk'. rewrite lookup_insert_ne; [now apply Hmap|].
  intros ->. congruence.
Qed.

(** [forEach] stops with the [TypeError] at the first event whose date is an
    inherited name. *)
Lemma forEach_group_event_None events : forall map,
  own_keys_plain map ->
  existsb (fun e => inherited (date e)) events = true ->
  forEach group_event events map = None.
Proof.
  induction events as [|e events IH]; intros map Hmap Hex; [discriminate|].
  cbn [forEach existsb] in *.
  destruct (inherited (date e)) eqn:Hd.
  - now rewrite group_event_inherited.
  - rewrite IndexFacts.group_event_spec by assumption.
    apply IH; [now apply own_keys_plain_insert | exact Hex].
Qed.

Lemma groupEventsByDate_None events :
  groupEventsByDate events = None <->
  existsb (fun e => inherited (date e)) events = true.
Proof.
  split.
  - intros Hrun. destruct (existsb _ events) eqn:E; [reflexivity|].
    destruct (IndexFacts.groupEventsByDate_spec events) as (index & Hidx & _).
    + intros e He. destruct (inherited (date e)) eqn:Hd; [|reflexivity].
      assert (existsb (fun e => inherited (date e)) events = true); [|congruence].
      apply existsb_exists. eauto.
    + congruence.
  - intros Hex. apply forEach_group_event_None; [|exact Hex].
    intros key _. apply lookup_empty.
Qed.

Lemma groupEventsByDate_Some events index :
  groupEventsByDate events = Some index ->
  forall e, In e events -> inherited (date e) = false.
Proof.
  intros Hrun e He. destruct (inherited (date e)) eqn:Hd; [|reflexivity].
  assert (Hex : existsb (fun e => inherited (date e)) events = true)
    by (apply existsb_exists; eauto).
  apply groupEventsByDate_None in Hex. congruence.
Qed.

(** What an index that was built holds. *)
Lemma groupEventsByDate_Some_spec events index :
  groupEventsByDate events = Some index ->
  (forall key, index !! key =
     match events_on key events with [] => None | found => Some found end) /\
  (forall key, inherited key = false ->
     lookup_events index key = Own (events_on key events)).
Proof.
  intros Hrun. pose proof (groupEventsByDate_Some events index Hrun) as Hev.
  destruct (IndexFacts.groupEventsByDate_spec events Hev) as (index' & Hrun' & Hidx).
  rewrite Hrun in Hrun'. injection Hrun' as <-.
  split; [exact Hidx|]. intros key Hkey.
  apply IndexFacts.lookup_events_spec; [exact Hkey|]. rewrite Hidx.
  now destruct (events_on key events).
Qed.

Lemma events_on_app key l1 l2 :
  events_on key (l1 ++ l2) = events_on key l1 ++ events_on key l2.
Proof. unfold events_on. apply List.filter_app. Qed.

End IndexMore.

(** ** More on the date search *)
Module SearchMore.
Import CalendarFacts.

(** The key of a day of a year from 1 on is the [YYYY-MM-DD] rendering of its
    fields. *)
Lemma toKey_day_render day :
  1 <= YearFromDay day ->
  toKey_day day =
    render_YYYY_MM_DD (Z.to_N (MonthFromDay day + 1)) (Z.to_N (DateFromDay day))
                      (Z.to_N (YearFromDay day)).
Proof.
  intros Hy. pose proof (MonthFromDay_range day). pose proof (DateFromDay_range day).
  unfold toKey_day, render_YYYY_MM_DD. rewrite !Z2N.id by lia.
  destruct (Z.ltb_spec 0 (YearFromDay day)); [reflexivity|lia].
Qed.

(** The text of a key resolves to the day of the key. *)
Lemma parse_toKey_day day :
  1900 <= YearFromDay day <= 9999 ->
  parseSearchInput (toKey_day day) = Resolved (DateValue day).
Proof.
  intros Hy. pose proof (MonthFromDay_range day) as Hm.
  pose proof (DateFromDay_range day) as Hd.
  rewrite toKey_day_render by lia.
  rewrite <- SearchFacts.renderings_agree.
  rewrite SearchFacts.rendering_resolves; rewrite ?Z2N.id by lia; try lia.
  do 2 f_equal. replace (MonthFromDay day + 1 - 1) with (MonthFromDay day) by lia.
  rewrite MakeDay_fields. lia.
Qed.

(** The outcome on three integers, resolved or not. *)
Lemma validate_Resolved m d y date :
  validate (Num m) (Num d) (Num y) = Resolved date <->
  (1 <= m <= 12 /\ 1 <= d <= days_in_month y m /\ 1900 <= y <= 9999) /\
  date = DateValue (MakeDay y (m - 1) d).
Proof.
  rewrite SearchFacts.validate_numbers.
  pose proof (DateFacts.days_in_month_le y m).
  destruct (Z.ltb_spec m 1); [split; [discriminate | lia]|].
  destruct (Z.ltb_spec 12 m); [split; [discriminate | lia]|].
  destruct (Z.ltb_spec d 1); [split; [discriminate | lia]|].
  destruct (Z.ltb_spec 31 d); [split; [discriminate | lia]|].
  destruct (Z.ltb_spec y 1900); [split; [discriminate | lia]|].
  destruct (Z.ltb_spec 9999 y); [split; [discriminate | lia]|].
  cbn [orb].
  destruct (Z.leb_spec d (days_in_month y m)).
  - split; [intros [= <-]; split; [lia | reflexivity] | intros [_ ->]; reflexivity].
  - split; [discriminate | lia].
Qed.

(** A date resolved comes from three integers that name a date that exists,
    and is that date. *)
Lemma parseSearchInput_Resolved searchDate date :
  parseSearchInput searchDate = Resolved date ->
  exists m d y,
    search_fields searchDate = Some (Num m, Num d, Num y) /\
    (1 <= m <= 12 /\ 1 <= d <= days_in_month y m /\ 1900 <= y <= 9999) /\
    date = DateValue (MakeDay y (m - 1) d).
Proof.
  intros Hrun.
  destruct (search_fields searchDate) as [[[mn dn] yn]|] eqn:E.
  - rewrite (SearchFacts.parseSearchInput_fields _ _ _ _ E) in Hrun.
    assert (HN : mn = NaN \/ dn = NaN \/ yn = NaN -> False).
    { intros HN.
      destruct (SearchFacts.validate_NaN mn dn yn HN) as [H | [H | [H | H]]];
        rewrite H in Hrun; discriminate. }
    destruct mn as [|m], dn as [|d], yn as [|y];
      try (exfalso; apply HN; auto; fail).
    apply validate_Resolved in Hrun as [Hv ->].
    exists m, d, y. auto.
  - rewrite SearchFacts.parseSearchInput_no_separator in Hrun by assumption.
    discriminate.
Qed.

Lemma searchDate_handleSearch eventsByDate st :
  searchDate (handleSearch eventsByDate st) = searchDate st.
Proof.
  unfold handleSearch.
  now destruct (parseSearchInput (searchDate st)) as [[|day]|e].
Qed.

End SearchMore.

(** * Further statements *)

Import CalendarFacts DateFnsFacts GridFacts IndexMore SearchMore.

(** ** The date search *)




(** X3. The key [format(date, 'yyyy-MM-dd')] gives for a day of a year from
    1900 to 9999, typed into the search box, resolves to that day: the search
    reads back the keys of the index. *)
Theorem search_reads_key day :
  1900 <= YearFromDay day <= 9999 ->
  parseSearchInput (toKey_day day) = Resolved (DateValue day).
Proof. apply parse_toKey_day. Qed.

Lemma search_reads_key_witness :
  toKey_day 20254 = "2025-06-15" /\
  parseSearchInput (toKey_day 20254) = Resolved (DateValue 20254).
Proof.
  split; [reflexivity|]. apply (search_reads_key 20254).
  split; [vm_compute; discriminate | vm_compute; discriminate].
Defined.

(** X4. A search that resolves, on the index of a list of events, shows the
    month of the date, selects the date, lists exactly the events of the list
    whose date string is the key of that date, in the order of the list, and
    shows the long form of the date. *)
Theorem handleSearch_selects_day events index st day :
  groupEventsByDate events = Some index ->
  parseSearchInput (searchDate st) = Resolved (DateValue day) ->
  handleSearch index st =
    {| currentMonth := DateValue day;
       selectedDate := Some (DateValue day);
       selectedEvents := Own (events_on (toKey_day day) events);
       searchDate := searchDate st;
       searchResult := Some (long_form day) |}.
Proof.
  intros Hidx Hrun. unfold handleSearch. rewrite Hrun.
  destruct (groupEventsByDate_Some_spec events index Hidx) as [_ L].
  now rewrite (L _ (IndexFacts.toKey_day_not_inherited day)).
Qed.

Lemma handleSearch_selects_day_witness :
  exists index,
    groupEventsByDate [standup; retro; review] = Some index /\
    handleSearch index (typing "06/15/2025") =
      {| currentMonth := DateValue 20254;
         selectedDate := Some (DateValue 20254);
         selectedEvents := Own (events_on (toKey_day 20254) [standup; retro; review]);
         searchDate := "06/15/2025";
         searchResult := Some (long_form 20254) |}.
Proof.
  destruct (IndexFacts.groupEventsByDate_lookup [standup; retro; review])
    as (index & E & _); [intros e [<- | [<- | [<- | []]]]; reflexivity |].
  exists index. split; [exact E|].
  apply (handleSearch_selects_day [standup; retro; review] index
           (typing "06/15/2025") 20254 E).
  reflexivity.
Defined.

(** X5. A search that fails changes nothing but the text of the result: the
    month shown, the selected date and the listed events stay, and the text is
    the message of the error thrown, which starts with "Invalid", so the
    fallback text of the [catch] block is never shown. *)
Theorem handleSearch_failure_keeps_view eventsByDate st e :
  parseSearchInput (searchDate st) = Thrown e ->
  handleSearch eventsByDate st =
    {| currentMonth := currentMonth st;
       selectedDate := selectedDate st;
       selectedEvents := selectedEvents st;
       searchDate := searchDate st;
       searchResult := Some (message e) |} /\
  String.prefix "Invalid" (message e) = true.
Proof.
  intros Hrun. split.
  - unfold handleSearch. rewrite Hrun. unfold caught_message.
    now destruct e.
  - now destruct e.
Qed.

Lemma handleSearch_failure_keeps_view_witness :
  handleSearch ∅ (typing "04/31/2025") =
    {| currentMonth := DateValue 20254;
       selectedDate := None;
       selectedEvents := Own [];
       searchDate := "04/31/2025";
       searchResult := Some "Invalid date for the given month" |} /\
  String.prefix "Invalid" "Invalid date for the given month" = true.
Proof.
  apply (handleSearch_failure_keeps_view ∅ (typing "04/31/2025") InvalidDayForMonth).
  reflexivity.
Defined.

(** X6. Submitting the same search again changes nothing: the handler is
    idempotent. *)
Theorem handleSearch_idempotent eventsByDate st :
  handleSearch eventsByDate (handleSearch eventsByDate st) =
  handleSearch eventsByDate st.
Proof.
  unfold handleSearch at 1. rewrite searchDate_handleSearch.
  unfold handleSearch.
  destruct (parseSearchInput (searchDate st)) as [[|day]|e]; reflexivity.
Qed.

(** ** The event index *)

(** X7. [groupEventsByDate] throws exactly when the date string of some event
    is a name that objects inherit ("constructor", "toString", ...): it finds
    the inherited value under that key and calls [push] on it. *)
Theorem groupEventsByDate_throws_iff events :
  groupEventsByDate events = None <->
  exists e, In e events /\ inherited (date e) = true.
Proof.
  rewrite groupEventsByDate_None, existsb_exists. reflexivity.
Qed.

(** X8. The index has a key exactly for the date strings that occur in the
    list: no key without an event, no empty array, and under each key the
    events of that date in the order of the list. *)
Theorem index_keys events index :
  groupEventsByDate events = Some index ->
  (forall key, index !! key = None <-> forall e, In e events -> date e <> key) /\
  (forall key found, index !! key = Some found ->
     found <> [] /\ found = events_on key events).
Proof.
  intros Hrun.
  destruct (groupEventsByDate_Some_spec events index Hrun) as [Hidx _].
  split.
  - intros key. rewrite Hidx. split.
    + intros Hnone e He Hd.
      assert (Hin : In e (events_on key events))
        by (apply IndexFacts.In_events_on; auto).
      destruct (events_on key events); [exact Hin | discriminate].
    + intros Habsent. now rewrite IndexFacts.events_on_absent.
  - intros key found. rewrite Hidx.
    destruct (events_on key events) as [|e l]; [discriminate|].
    intros [= <-]. split; [discriminate | reflexivity].
Qed.

Lemma index_keys_witness :
  exists index,
    groupEventsByDate [standup; retro; review] = Some index /\
    (forall key, index !! key = None <->
       forall e, In e [standup; retro; review] -> date e <> key) /\
    (forall key found, index !! key = Some found ->
       found <> [] /\ found = events_on key [standup; retro; review]).
Proof.
  destruct (IndexFacts.groupEventsByDate_lookup [standup; retro; review])
    as (index & E & _); [intros e [<- | [<- | [<- | []]]]; reflexivity |].
  exists index. split; [exact E|].
  exact (index_keys [standup; retro; review] index E).
Defined.

(** X9. Grouping distributes over concatenation: when the index of two lists
    one after the other is built, so is the index of each, and a lookup in
    the index of both, under a key that is not an inherited name, gives the
    events found in the first followed by those found in the second. *)
Theorem index_append events1 events2 index :
  groupEventsByDate (events1 ++ events2) = Some index ->
  exists index1 index2,
    groupEventsByDate events1 = Some index1 /\
    groupEventsByDate events2 = Some index2 /\
    forall key, inherited key = false ->
      exists found1 found2,
        lookup_events index1 key = Own found1 /\
        lookup_events index2 key = Own found2 /\
        lookup_events index key = Own (found1 ++ found2).
Proof.
  intros Hrun.
  pose proof (groupEventsByDate_Some _ _ Hrun) as Hev.
  destruct (IndexFacts.groupEventsByDate_lookup events1) as (index1 & H1 & L1).
  { intros e He. apply Hev, in_or_app. now left. }
  destruct (IndexFacts.groupEventsByDate_lookup events2) as (index2 & H2 & L2).
  { intros e He. apply Hev, in_or_app. now right. }
  exists index1, index2. split; [exact H1|]. split; [exact H2|].
  intros key Hkey. exists (events_on key events1), (events_on key events2).
  split; [now apply L1|]. split; [now apply L2|].
  destruct (groupEventsByDate_Some_spec _ _ Hrun) as [_ L].
  now rewrite (L key Hkey), events_on_app.
Qed.

Lemma index_append_witness :
  exists index index1 index2,
    groupEventsByDate ([standup; retro] ++ [review]) = Some index /\
    groupEventsByDate [standup; retro] = Some index1 /\
    groupEventsByDate [review] = Some index2 /\
    forall key, inherited key = false ->
      exists found1 found2,
        lookup_events index1 key = Own found1 /\
        lookup_events index2 key = Own found2 /\
        lookup_events index key = Own (found1 ++ found2).
Proof.
  destruct (IndexFacts.groupEventsByDate_lookup ([standup; retro] ++ [review]))
    as (index & E & _); [intros e [<- | [<- | [<- | []]]]; reflexivity |].
  exists index.
  destruct (index_append [standup; retro] [review] index E)
    as (index1 & index2 & H).
  exists index1, index2. split; [exact E | exact H].
Defined.

(** ** Conflict detection *)
Module ConflictMore.
Import ConflictFacts.

Lemma detectConflicts_lookup evs k e :
  evs !! k = Some e ->
  exists r, detectConflicts evs !! k = Some r /\ event r = e.
Proof.
  intros He. pose proof (lookup_map event (detectConflicts evs) k) as E.
  rewrite detectConflicts_events, He in E.
  destruct (detectConflicts evs !! k) as [r|]; [|discriminate].
  exists r. split; [reflexivity|]. now injection E.
Qed.

Lemma detectConflicts_lookup_event evs k r :
  detectConflicts evs !! k = Some r -> evs !! k = Some (event r).
Proof.
  intros Hr. rewrite <- (detectConflicts_events evs) at 1.
  now rewrite lookup_map, Hr.
Qed.

(** Whether the event at a position is flagged depends on the event and on
    the events of the list, not on the position. *)
Lemma flagged_position_value evs k e :
  evs !! k = Some e ->
  (exists j, j <> k /\ overlaps_at evs k j = true) <-> overlapped_in evs e.
Proof.
  intros He. unfold overlaps_at. split.
  - intros (j & Hne & Ho). rewrite He in Ho.
    destruct (evs !! j) as [b|] eqn:Ej; [|discriminate].
    exists k, j, b. auto.
  - intros (k' & j & b & Hne & Hk' & Hj & Ho).
    destruct (decide (k' = k)) as [->|Hk].
    + exists j. split; [auto|]. now rewrite He, Hj.
    + destruct (decide (j = k)) as [->|Hj'].
      * assert (b = e) by congruence. subst b.
        exists k'. split; [exact Hk|]. now rewrite He, Hk'.
      * exists j. split; [exact Hj'|]. now rewrite He, Hj.
Qed.

(** The elements of the result: the events of the input, each flagged exactly
    when it overlaps the event at another position. *)
Lemma In_detectConflicts evs a :
  In a (detectConflicts evs) <->
  In (event a) evs /\ (conflict a = true <-> overlapped_in evs (event a)).
Proof.
  rewrite <- !list_elem_of_In, !list_elem_of_lookup. split.
  - intros [k Hk]. pose proof (detectConflicts_lookup_event evs k a Hk) as He.
    split; [eauto|].
    rewrite (detectConflicts_conflict evs k a Hk).
    now apply flagged_position_value.
  - intros [[k He] Hflag].
    destruct (detectConflicts_lookup evs k _ He) as (r & Hr & Er).
    exists k. rewrite Hr. f_equal.
    assert (Hc : conflict r = conflict a).
    { pose proof (detectConflicts_conflict evs k r Hr) as Hr'.
      rewrite (flagged_position_value evs k _ He) in Hr'.
      destruct (conflict r), (conflict a); try reflexivity.
      - symmetry. apply Hflag, Hr'. reflexivity.
      - apply Hr', Hflag. reflexivity. }
    destruct r, a; simpl in *. now subst.
Qed.

Lemma overlapped_in_Permutation evs evs' e :
  Permutation evs evs' -> overlapped_in evs e -> overlapped_in evs' e.
Proof.
  intros Hp (k & j & b & Hne & Hk & Hj & Ho).
  apply Permutation_inj in Hp as (_ & f & Hinj & Hf).
  exists (f k), (f j), b. repeat split.
  - intros E. apply Hne. now apply Hinj.
  - now rewrite <- Hf.
  - now rewrite <- Hf.
  - exact Ho.
Qed.

(** Positions of a list inside a longer one. *)
Lemma lookup_middle (pre evs post : list Event) k :
  (k < length evs)%nat ->
  (pre ++ evs ++ post) !! (length pre + k)%nat = evs !! k.
Proof.
  intros Hk. rewrite lookup_app_r by lia.
  replace (length pre + k - length pre)%nat with k by lia.
  now apply lookup_app_l.
Qed.

(** [Number] on a run of digits. *)
Lemma all_digits_digits_prefix s : forall acc,
  digits_only s = true -> all_digits acc s = digits_prefix (Some acc) s.
Proof.
  induction s as [|x s IH]; intros acc; simpl; [reflexivity|].
  rewrite andb_true_iff. intros [Hx Hs]. rewrite Hx. now apply IH.
Qed.

Lemma trim_end_digits s : digits_only s = true -> trim_end s = s.
Proof.
  induction s as [|x s IH]; simpl; [reflexivity|].
  rewrite andb_true_iff. intros [Hx Hs]. rewrite (IH Hs).
  destruct s; [|reflexivity].
  assert (Hw : is_white_space x = false).
  { apply StringFacts.is_digit_code in Hx. unfold is_white_space.
    destruct (Z.leb_spec 9 (code x)), (Z.leb_spec (code x) 13),
             (Z.eqb_spec (code x) 32), (Z.eqb_spec (code x) 160);
      simpl; try reflexivity; lia. }
  now rewrite Hw.
Qed.

Lemma Number_digits s n :
  digits_only s = true -> digits_prefix None s = Some n -> Number s = Num n.
Proof.
  intros Hd Hn.
  assert (Hne : s <> "") by (intros ->; discriminate).
  unfold Number. rewrite StringFacts.trim_start_digit, trim_end_digits by assumption.
  destruct s as [|x s]; [congruence|].
  assert (Hx : is_digit x = true) by (simpl in Hd; now apply andb_true_iff in Hd).
  assert (E : all_digits 0 (String x s) = Some n).
  { rewrite all_digits_digits_prefix by assumption.
    now rewrite StringFacts.digits_prefix_Some_0. }
  destruct x as [[] [] [] [] [] [] [] []]; try discriminate Hx;
    cbv beta iota; now rewrite E.
Qed.

Lemma Number_addLeadingZeros n width :
  0 <= n -> Number (addLeadingZeros n width) = Num n.
Proof.
  intros Hn. apply Number_digits.
  - now apply StringFacts.digits_only_addLeadingZeros.
  - rewrite StringFacts.addLeadingZeros_nonneg by assumption.
    rewrite StringFacts.digits_prefix_zeros.
    + now apply StringFacts.digits_prefix_decimal.
    + apply StringFacts.digits_only_decimal_digits.
    + apply StringFacts.decimal_nonempty.
Qed.

End ConflictMore.

Import ConflictMore.

(** X10. The flags do not depend on the order of the input: for two lists
    with the same events in any order, [detectConflicts] returns the same
    annotated events, each event with the same flag. *)
Theorem conflicts_ignore_order evs evs' a :
  Permutation evs evs' ->
  In a (detectConflicts evs) <-> In a (detectConflicts evs').
Proof.
  intros Hp. rewrite !In_detectConflicts.
  assert (Hin : In (event a) evs <-> In (event a) evs').
  { split; apply Permutation_in; [exact Hp | now symmetry]. }
  assert (Ho : overlapped_in evs (event a) <-> overlapped_in evs' (event a)).
  { split; apply overlapped_in_Permutation; [exact Hp | now symmetry]. }
  rewrite Hin, Ho. reflexivity.
Qed.

Lemma conflicts_ignore_order_witness :
  In {| event := review; conflict := true |} (detectConflicts [standup; lunch; review])
  <-> In {| event := review; conflict := true |} (detectConflicts [review; standup; lunch]).
Proof.
  apply (conflicts_ignore_order [standup; lunch; review] [review; standup; lunch]).
  apply Permutation_sym, (Permutation_cons_app [standup; lunch] [] review).
  apply Permutation_refl.
Defined.

(** X11. No event is flagged alone: a flagged element of the result has a
    partner at another position that is flagged too and overlaps it. *)
Theorem flagged_has_flagged_partner evs k r :
  detectConflicts evs !! k = Some r -> conflict r = true ->
  exists j r',
    j <> k /\ detectConflicts evs !! j = Some r' /\
    conflict r' = true /\ overlaps (event r) (event r') = true.
Proof.
  intros Hk Hc.
  apply (ConflictFacts.detectConflicts_conflict evs k r Hk) in Hc as (j & Hne & Ho).
  pose proof (detectConflicts_lookup_event evs k r Hk) as Ek.
  unfold overlaps_at in Ho. rewrite Ek in Ho.
  destruct (evs !! j) as [b|] eqn:Ej; [|discriminate].
  destruct (detectConflicts_lookup evs j b Ej) as (r' & Hr' & <-).
  exists j, r'. repeat split; try assumption.
  apply (ConflictFacts.detectConflicts_conflict evs j r' Hr'). exists k.
  split; [auto|]. unfold overlaps_at.
  now rewrite Ek, Ej, ConflictFacts.overlaps_comm.
Qed.

Lemma flagged_has_flagged_partner_witness :
  exists j r',
    j <> 2%nat /\ detectConflicts [standup; lunch; review] !! j = Some r' /\
    conflict r' = true /\ overlaps review (event r') = true.
Proof.
  apply (flagged_has_flagged_partner [standup; lunch; review] 2
           {| event := review; conflict := true |}); reflexivity.
Defined.

(** X12. More events never clear a flag: an event flagged among the events of
    a list is flagged, at its shifted position, among the events of any list
    that has that list as a segment. *)
Theorem more_events_keep_flags pre evs post k r :
  detectConflicts evs !! k = Some r -> conflict r = true ->
  exists r',
    detectConflicts (pre ++ evs ++ post) !! (length pre + k)%nat = Some r' /\
    event r' = event r /\ conflict r' = true.
Proof.
  intros Hk Hc.
  pose proof (detectConflicts_lookup_event evs k r Hk) as Ek.
  apply (ConflictFacts.detectConflicts_conflict evs k r Hk) in Hc as (j & Hne & Ho).
  pose proof (ConflictFacts.overlaps_at_lt _ _ _ Ho) as [Hlk Hlj].
  destruct (detectConflicts_lookup (pre ++ evs ++ post) (length pre + k) (event r))
    as (r' & Hr' & Er').
  { now rewrite lookup_middle. }
  exists r'. repeat split; try assumption.
  apply (ConflictFacts.detectConflicts_conflict _ _ r' Hr').
  exists (length pre + j)%nat. split; [lia|].
  unfold overlaps_at in *. now rewrite !lookup_middle.
Qed.

Lemma more_events_keep_flags_witness :
  exists r',
    detectConflicts ([lunch] ++ [standup; review] ++ [retro])
      !! (length [lunch] + 1)%nat = Some r' /\
    event r' = review /\ conflict r' = true.
Proof.
  apply (more_events_keep_flags [lunch] [standup; review] [retro] 1
           {| event := review; conflict := true |}); reflexivity.
Defined.



(** X14. A start time without a colon has no minutes: [toMinutes] is [NaN] on
    it, and an event with such a start time is never flagged, whatever else
    is in the list. *)
Theorem time_without_colon_never_flagged :
  (forall t, includes ":" t = false -> toMinutes t = NaN) /\
  (forall evs k r,
     detectConflicts evs !! k = Some r ->
     includes ":" (startTime (event r)) = false ->
     conflict r = false).
Proof.
  assert (HNaN : forall t, includes ":" t = false -> toMinutes t = NaN).
  { intros t Ht. unfold toMinutes.
    rewrite StringFacts.split_no_separator by assumption. simpl.
    now destruct (mul (Number t) (Num 60)). }
  split; [exact HNaN|].
  intros evs k r Hk Ht.
  destruct (conflict r) eqn:Hc; [|reflexivity].
  apply (ConflictFacts.detectConflicts_conflict evs k r Hk) in Hc as (j & _ & Ho).
  unfold overlaps_at in Ho.
  rewrite (detectConflicts_lookup_event evs k r Hk) in Ho.
  destruct (evs !! j) as [b|]; [|discriminate].
  apply ConflictFacts.overlaps_true in Ho as (sa & sb & Ea & _).
  unfold start_of in Ea. rewrite (HNaN _ Ht) in Ea. discriminate.
Qed.

Lemma time_without_colon_never_flagged_witness :
  toMinutes "0900" = NaN /\
  map conflict
    (detectConflicts [sample_event 9 "2025-06-15" "0900" "1000" 60; standup])
    = [false; false].
Proof.
  split.
  - apply (proj1 time_without_colon_never_flagged "0900"). reflexivity.
  - reflexivity.
Defined.



(** ** The cells of the grid *)
Module CellFacts.
Import ConflictFacts ConflictMore.

(** The events of a date and the others make up the list. *)
Lemma events_on_Permutation key events :
  Permutation
    (events_on key events
     ++ List.filter (fun e => negb (String.eqb (date e) key)) events)
    events.
Proof.
  unfold events_on. induction events as [|e events IH]; [constructor|].
  simpl. destruct (String.eqb (date e) key); simpl.
  - now constructor.
  - symmetry. apply Permutation_cons_app. now symmetry.
Qed.

(** Overlapping an event of a date within the list is overlapping it within
    the events of that date. *)
Lemma overlapped_in_events_on key events e :
  date e = key ->
  overlapped_in (events_on key events) e <->
  exists k j b,
    k <> j /\ events !! k = Some e /\ events !! j = Some b /\
    date b = key /\ overlaps e b = true.
Proof.
  intros He.
  set (off := List.filter (fun e => negb (String.eqb (date e) key)) events).
  pose proof (events_on_Permutation key events) as Hp. fold off in Hp.
  assert (Hon : forall i x, (events_on key events ++ off) !! i = Some x ->
                  date x = key -> events_on key events !! i = Some x).
  { intros i x Hi Hx. apply lookup_app_Some in Hi as [Hi | [_ Hi]]; [exact Hi|].
    apply list_elem_of_lookup_2, list_elem_of_In in Hi.
    unfold off in Hi. apply filter_In in Hi as [_ Hi].
    apply negb_true_iff, String.eqb_neq in Hi. contradiction. }
  split.
  - intros (k & j & b & Hne & Hk & Hj & Ho).
    assert (Hb : date b = key).
    { apply list_elem_of_lookup_2, list_elem_of_In, IndexFacts.In_events_on in Hj.
      tauto. }
    apply Permutation_inj in Hp as (_ & f & Hinj & Hf).
    exists (f k), (f j), b. repeat split; try assumption.
    + intros E. apply Hne. now apply Hinj.
    + rewrite <- Hf. now apply lookup_app_l_Some.
    + rewrite <- Hf. now apply lookup_app_l_Some.
  - intros (k & j & b & Hne & Hk & Hj & Hb & Ho).
    symmetry in Hp. apply Permutation_inj in Hp as (_ & f & Hinj & Hf).
    exists (f k), (f j), b. repeat split; try assumption.
    + intros E. apply Hne. now apply Hinj.
    + apply Hon; [now rewrite <- Hf | exact He].
    + apply Hon; [now rewrite <- Hf | exact Hb].
Qed.

End CellFacts.

Import CellFacts.

(** X16. The cell of a day shows the events of the list whose date string is
    the key of the day, in the order of the list, and flags one of them
    exactly when it overlaps another event of the list with that same date:
    events of other days neither cause nor receive a flag. *)
Theorem cell_shows_day events index d :
  groupEventsByDate events = Some index ->
  exists cell,
    cell_events index d = Some cell /\
    map event cell = events_on (toKey_day (DateFns.Day d)) events /\
    forall a, In a cell ->
      (conflict a = true <->
       exists k j b,
         k <> j /\ events !! k = Some (event a) /\ events !! j = Some b /\
         date b = toKey_day (DateFns.Day d) /\ overlaps (event a) b = true).
Proof.
  intros Hrun.
  destruct (groupEventsByDate_Some_spec events index Hrun) as [_ L].
  exists (detectConflicts (events_on (toKey_day (DateFns.Day d)) events)).
  split; [|split].
  - unfold cell_events.
    now rewrite (L _ (IndexFacts.toKey_day_not_inherited (DateFns.Day d))).
  - apply detectConflicts_events.
  - intros a Ha. apply In_detectConflicts in Ha as [Hin Hflag].
    rewrite Hflag. apply overlapped_in_events_on.
    now apply IndexFacts.In_events_on in Hin.
Qed.

Lemma cell_shows_day_witness :
  exists index cell,
    groupEventsByDate [standup; retro; review] = Some index /\
    cell_events index (20254 * 86400000) = Some cell /\
    map event cell = events_on (toKey_day (DateFns.Day (20254 * 86400000)))
                       [standup; retro; review] /\
    forall a, In a cell ->
      (conflict a = true <->
       exists k j b,
         k <> j /\ [standup; retro; review] !! k = Some (event a) /\
         [standup; retro; review] !! j = Some b /\
         date b = toKey_day (DateFns.Day (20254 * 86400000)) /\
         overlaps (event a) b = true).
Proof.
  destruct (IndexFacts.groupEventsByDate_lookup [standup; retro; review])
    as (index & E & _); [intros e [<- | [<- | [<- | []]]]; reflexivity |].
  exists index.
  destruct (cell_shows_day [standup; retro; review] index (20254 * 86400000) E)
    as (cell & H).
  exists cell. split; [exact E | exact H].
Defined.

(** ** The store *)

(** X17. [detectConflicts] can be called again on the same array, as the
    component does at every rendering: the second call returns normally, its
    result is another array of other objects, the result of the first call
    is untouched by it, and position by position the two results hold equal
    objects. *)
Theorem detectConflicts_twice st eventsForDay elements objs :
  st !! eventsForDay = Some (Store.ArrayCell elements) ->
  Forall2 (fun l o => st !! l = Some (Store.ObjectCell o)) elements objs ->
  exists results1 copies1 st1 results2 copies2 st2,
    Store.detectConflicts eventsForDay st = Some (results1, st1) /\
    Store.detectConflicts eventsForDay st1 = Some (results2, st2) /\
    results1 <> results2 /\
    (forall l c, st1 !! l = Some c -> st2 !! l = Some c) /\
    st2 !! results1 = Some (Store.ArrayCell copies1) /\
    st2 !! results2 = Some (Store.ArrayCell copies2) /\
    NoDup (copies1 ++ copies2) /\
    Forall2 (fun l1 l2 =>
        exists o, st2 !! l1 = Some (Store.ObjectCell o) /\
                  st2 !! l2 = Some (Store.ObjectCell o))
      copies1 copies2.
Proof.
  intros Harr Hobjs.
  destruct (detectConflicts_represents st eventsForDay elements objs Harr Hobjs)
    as (results1 & copies1 & st1 & Hrun1 & R1).
  pose proof (Store.rep_frame _ _ _ _ _ R1) as Hframe1.
  destruct (detectConflicts_represents st1 eventsForDay elements objs)
    as (results2 & copies2 & st2 & Hrun2 & R2).
  { now apply Hframe1. }
  { eapply Forall2_impl; [exact Hobjs|]. intros l o H. now apply Hframe1. }
  pose proof (Store.rep_frame _ _ _ _ _ R2) as Hframe2.
  pose proof (Store.rep_objects _ _ _ _ _ R1) as Hall1.
  pose proof (Store.rep_objects _ _ _ _ _ R2) as Hall2.
  exists results1, copies1, st1, results2, copies2, st2.
  repeat split; try assumption.
  - intros ->. pose proof (Store.rep_array _ _ _ _ _ R1) as H1.
    pose proof (Store.rep_array_new _ _ _ _ _ R2) as H2. congruence.
  - apply Hframe2. exact (Store.rep_array _ _ _ _ _ R1).
  - exact (Store.rep_array _ _ _ _ _ R2).
  - apply NoDup_app. split; [exact (Store.rep_distinct _ _ _ _ _ R1)|].
    split; [|exact (Store.rep_distinct _ _ _ _ _ R2)].
    intros l Hl1 Hl2.
    apply list_elem_of_lookup in Hl1 as [i1 Hi1].
    apply list_elem_of_lookup in Hl2 as [i2 Hi2].
    destruct (Forall2_lookup_l _ _ _ _ _ Hall1 Hi1) as (a1 & _ & _ & Hs1).
    destruct (Forall2_lookup_l _ _ _ _ _ Hall2 Hi2) as (a2 & _ & Hn2 & _).
    congruence.
  - apply Forall2_same_length_lookup. split.
    + now rewrite (rep_length R1), (rep_length R2).
    + intros i l1 l2 Hl1 Hl2.
      destruct (Forall2_lookup_l _ _ _ _ _ Hall1 Hl1) as (a1 & Ha1 & _ & Hs1).
      destruct (Forall2_lookup_l _ _ _ _ _ Hall2 Hl2) as (a2 & Ha2 & _ & Hs2).
      assert (a1 = a2) by congruence. subst a2.
      exists (Store.object_of a1). split; [now apply Hframe2 | exact Hs2].
Qed.

Lemma detectConflicts_twice_witness :
  exists results1 copies1 st1 results2 copies2 st2,
    Store.detectConflicts 2%nat sample_store = Some (results1, st1) /\
    Store.detectConflicts 2%nat st1 = Some (results2, st2) /\
    results1 <> results2 /\
    (forall l c, st1 !! l = Some c -> st2 !! l = Some c) /\
    st2 !! results1 = Some (Store.ArrayCell copies1) /\
    st2 !! results2 = Some (Store.ArrayCell copies2) /\
    NoDup (copies1 ++ copies2) /\
    Forall2 (fun l1 l2 =>
        exists o, st2 !! l1 = Some (Store.ObjectCell o) /\
                  st2 !! l2 = Some (Store.ObjectCell o))
      copies1 copies2.
Proof.
  apply (detectConflicts_twice sample_store 2%nat [0%nat; 1%nat]
           [{| Store.properties := standup; Store.conflict_property := None |};
            {| Store.properties := review; Store.conflict_property := None |}]).
  - reflexivity.
  - repeat constructor.
Defined.

(** ** The month grid *)
Module GridMore.
Import CalendarFacts DateFnsFacts GridFacts.

(** The cell in row [i] and column [j] of a grid. *)
Lemma grid_of_cell startDate weeks i j row cell :
  grid_of startDate weeks !! i = Some row -> row !! j = Some cell ->
  (i < weeks)%nat /\ (j < 7)%nat /\
  cell = startDate + (7 * Z.of_nat i + Z.of_nat j) * DateFns.msPerDay.
Proof.
  unfold grid_of. intros Hrow Hcell.
  rewrite ConflictFacts.lookup_map in Hrow.
  destruct (seq 0 weeks !! i) as [i'|] eqn:Ei; [|discriminate].
  apply lookup_seq in Ei as [-> Hi]. injection Hrow as <-.
  do 7 (destruct j as [|j];
        [injection Hcell as <-; rewrite addDays_spec; repeat split; lia|]).
  discriminate.
Qed.

Lemma grid_of_cell_exists startDate weeks i j :
  (i < weeks)%nat -> (j < 7)%nat ->
  exists row,
    grid_of startDate weeks !! i = Some row /\
    row !! j = Some (startDate + (7 * Z.of_nat i + Z.of_nat j) * DateFns.msPerDay).
Proof.
  intros Hi Hj. unfold grid_of. eexists. split.
  - rewrite ConflictFacts.lookup_map, lookup_seq_lt by assumption. reflexivity.
  - rewrite ConflictFacts.lookup_map, lookup_seq_lt by assumption.
    simpl. now rewrite addDays_spec.
Qed.

Lemma MakeDate_add day n :
  DateFns.MakeDate day 0 + n * DateFns.msPerDay = DateFns.MakeDate (day + n) 0.
Proof. unfold DateFns.MakeDate. lia. Qed.

Lemma isSameDay_iff a b :
  DateFns.isSameDay a b = true <-> DateFns.Day a = DateFns.Day b.
Proof.
  unfold DateFns.isSameDay, DateFns.startOfDay, DateFns.setHours.
  rewrite Z.eqb_eq. unfold DateFns.MakeDate, DateFns.msPerDay. lia.
Qed.

Lemma isSameMonth_iff a b :
  DateFns.isSameMonth a b = true <->
  DateFns.getFullYear a = DateFns.getFullYear b /\
  DateFns.getMonth a = DateFns.getMonth b.
Proof.
  unfold DateFns.isSameMonth. now rewrite andb_true_iff, !Z.eqb_eq.
Qed.

(** The first of the month has the year and the month of the date. *)
Lemma startOfMonth_fields t :
  DateFns.getFullYear (DateFns.startOfMonth t) = DateFns.getFullYear t /\
  DateFns.getMonth (DateFns.startOfMonth t) = DateFns.getMonth t.
Proof.
  rewrite startOfMonth_spec.
  unfold DateFns.getFullYear at 1, DateFns.getMonth at 1.
  destruct (midnight (DateFns.Day t + 1 - DateFns.getDate t)) as [-> _].
  destruct (first_of_month t) as (_ & Hy & Hm & _). now split.
Qed.

(** The grid with its numbers: [before] days of the month before, the [len]
    days of the month, [after] days of the month after. *)
Lemma calendar_rows_layout fuel currentMonth :
  (6 <= fuel)%nat ->
  let first := DateFns.Day currentMonth + 1 - DateFns.getDate currentMonth in
  let len := days_in_month (DateFns.getFullYear currentMonth)
                           (DateFns.getMonth currentMonth + 1) in
  exists (weeks : nat) (before : Z),
    0 <= before <= 6 /\ 28 <= len <= 31 /\
    before + len <= 7 * Z.of_nat weeks < before + len + 7 /\
    (first - before + 4) mod 7 = 1 /\
    DateFns.startOfWeek 1 (DateFns.startOfMonth currentMonth)
      = DateFns.MakeDate (first - before) 0 /\
    calendar_rows fuel currentMonth =
      grid_of (DateFns.MakeDate (first - before) 0) weeks.
Proof.
  intros Hfuel first len.
  destruct (calendar_rows_spec fuel currentMonth Hfuel) as (weeks & Hw & Hrows).
  fold first len in Hw, Hrows.
  destruct (grid_bounds currentMonth) as (_ & Es & _). fold first in Es.
  pose proof (days_in_month_le (DateFns.getFullYear currentMonth)
                (DateFns.getMonth currentMonth + 1)).
  pose proof (days_in_month_ge (DateFns.getFullYear currentMonth)
                (DateFns.getMonth currentMonth + 1)).
  exists weeks, ((WeekDay first + 6) mod 7).
  pose proof (Z.mod_pos_bound (WeekDay first + 6) 7 ltac:(lia)).
  pose proof (Z.mod_pos_bound (7 - WeekDay (first + len - 1)) 7 ltac:(lia)).
  repeat split; try assumption; try lia.
  unfold WeekDay. Z.to_euclidean_division_equations; lia.
Qed.

End GridMore.

Import GridMore.





(** X20. No row of the grid lies outside the month: every row has a day that
    the component does not mute, a day of the month of [monthStart]. *)
Theorem every_row_meets_month fuel currentMonth row :
  (6 <= fuel)%nat ->
  In row (calendar_rows fuel currentMonth) ->
  exists cell,
    In cell row /\
    DateFns.isSameMonth cell (DateFns.startOfMonth currentMonth) = true.
Proof.
  intros Hfuel Hin.
  destruct (calendar_rows_layout fuel currentMonth Hfuel)
    as (weeks & before & Hb & Hlen & Hw & _ & _ & Hrows).
  rewrite Hrows in Hin. clear Hrows.
  set (first := DateFns.Day currentMonth + 1 - DateFns.getDate currentMonth) in *.
  apply list_elem_of_In, list_elem_of_lookup in Hin as [i Hrow].
  assert (Hi : (i < weeks)%nat).
  { apply lookup_lt_Some in Hrow. unfold grid_of in Hrow.
    now rewrite length_map, length_seq in Hrow. }
  set (j := if (i =? 0)%nat then Z.to_nat before else 0%nat).
  assert (Hj : (j < 7)%nat /\
               before <= 7 * Z.of_nat i + Z.of_nat j
                 < before + days_in_month (DateFns.getFullYear currentMonth)
                                          (DateFns.getMonth currentMonth + 1)).
  { unfold j. destruct (Nat.eqb_spec i 0); lia. }
  destruct Hj as [Hj Hrange].
  destruct (grid_of_cell_exists (DateFns.MakeDate (first - before) 0) weeks i j Hi Hj)
    as (row' & Hrow' & Hcell).
  assert (row' = row) by congruence. subst row'.
  rewrite MakeDate_add in Hcell.
  eexists. split.
  - apply list_elem_of_In. eapply list_elem_of_lookup_2, Hcell.
  - apply isSameMonth_iff.
    destruct (startOfMonth_fields currentMonth) as [-> ->].
    unfold DateFns.getFullYear at 1, DateFns.getMonth at 1.
    destruct (midnight (first - before + (7 * Z.of_nat i + Z.of_nat j))) as [-> _].
    apply (same_month_iff currentMonth). fold first. lia.
Qed.

Lemma every_row_meets_month_witness :
  exists cell,
    In cell (map (fun j => DateFns.addDays (20234 * 86400000) (Z.of_nat j)) (seq 0 7)) /\
    DateFns.isSameMonth cell (DateFns.startOfMonth (20254 * 86400000)) = true.
Proof.
  apply (every_row_meets_month 6 (20254 * 86400000)); [lia|].
  vm_compute. left. reflexivity.
Defined.

(** ** Navigation between months *)
Module NavFacts.
Import CalendarFacts DateFnsFacts GridFacts GridMore.

(** Months counted from January of year 0. *)
Lemma MakeDay_month_index y m d : MakeDay y m d = MakeDay 0 (12 * y + m) d.
Proof.
  rewrite (MakeDay_normalize y m d), (MakeDay_normalize 0 (12 * y + m) d).
  f_equal; Z.to_euclidean_division_equations; lia.
Qed.

Lemma month_index_fields k d :
  1 <= d <= days_in_month (k / 12) (k mod 12 + 1) ->
  YearFromDay (MakeDay 0 k d) = k / 12 /\
  MonthFromDay (MakeDay 0 k d) = k mod 12 /\
  DateFromDay (MakeDay 0 k d) = d.
Proof.
  intros Hd. rewrite (MakeDay_normalize 0 k d), Z.add_0_l.
  apply fields_MakeDay; [|exact Hd].
  pose proof (Z.mod_pos_bound k 12 ltac:(lia)). lia.
Qed.

(** The day before the first of the month after is the last of the month. *)
Lemma last_of_month_index k :
  MakeDay 0 (k + 1) 0 = MakeDay 0 k (days_in_month (k / 12) (k mod 12 + 1)).
Proof.
  pose proof (Z.mod_pos_bound k 12 ltac:(lia)) as Hm.
  pose proof (MakeDay_next_month (k / 12) (k mod 12) ltac:(lia)) as Hn.
  rewrite (MakeDay_month_index (k / 12) (k mod 12 + 1)) in Hn.
  rewrite (MakeDay_month_index (k / 12) (k mod 12)) in Hn.
  replace (12 * (k / 12) + (k mod 12 + 1)) with (k + 1) in Hn
    by (pose proof (Z.div_mod k 12 ltac:(lia)); lia).
  replace (12 * (k / 12) + k mod 12) with k in Hn
    by (pose proof (Z.div_mod k 12 ltac:(lia)); lia).
  rewrite (MakeDay_date 0 (k + 1) 1 0), Hn.
  rewrite (MakeDay_date 0 k 1 (days_in_month (k / 12) (k mod 12 + 1))). lia.
Qed.

Lemma month_index_of t :
  let k := 12 * DateFns.getFullYear t + DateFns.getMonth t in
  k / 12 = DateFns.getFullYear t /\ k mod 12 = DateFns.getMonth t.
Proof.
  intros k. unfold k.
  pose proof (MonthFromDay_range (DateFns.Day t)) as Hm.
  unfold DateFns.getMonth in *. Z.to_euclidean_division_equations; lia.
Qed.

(** A date of a month index, at a time of day. *)
Lemma MakeDate_month_index k d time :
  1 <= d <= days_in_month (k / 12) (k mod 12 + 1) ->
  0 <= time < DateFns.msPerDay ->
  let t := DateFns.MakeDate (MakeDay 0 k d) time in
  DateFns.getFullYear t = k / 12 /\ DateFns.getMonth t = k mod 12 /\
  DateFns.getDate t = d /\ DateFns.TimeWithinDay t = time.
Proof.
  intros Hd Ht t.
  destruct (Day_MakeDate (MakeDay 0 k d) time Ht) as [ED ET]. fold t in ED, ET.
  unfold DateFns.getFullYear, DateFns.getMonth, DateFns.getDate. rewrite ED.
  destruct (month_index_fields k d Hd) as (Hy & Hm & Hdd). auto.
Qed.

(** [addMonths] moves by that many months, to the same day of the month or
    to the last one of a shorter month, and keeps the time of day. *)
Lemma addMonths_fields t amount :
  let k := 12 * DateFns.getFullYear t + DateFns.getMonth t + amount in
  DateFns.getFullYear (DateFns.addMonths t amount) = k / 12 /\
  DateFns.getMonth (DateFns.addMonths t amount) = k mod 12 /\
  DateFns.getDate (DateFns.addMonths t amount)
    = Z.min (DateFns.getDate t) (days_in_month (k / 12) (k mod 12 + 1)) /\
  DateFns.TimeWithinDay (DateFns.addMonths t amount) = DateFns.TimeWithinDay t.
Proof.
  intros k. unfold DateFns.addMonths.
  pose proof (DateFromDay_range (DateFns.Day t)) as Hd.
  fold (DateFns.getDate t) (DateFns.getFullYear t) (DateFns.getMonth t) in Hd.
  destruct (Z.eqb_spec amount 0) as [E0|Hne].
  - destruct (month_index_of t) as [Hy Hm].
    unfold k. rewrite E0, Z.add_0_r, Hy, Hm. repeat split. lia.
  - set (len := days_in_month (k / 12) (k mod 12 + 1)).
    pose proof (days_in_month_ge (k / 12) (k mod 12 + 1)) as Hge. fold len in Hge.
    assert (Eend : DateFns.setMonth t (DateFns.getMonth t + amount + 1) 0
                   = DateFns.MakeDate (MakeDay 0 k len) (DateFns.TimeWithinDay t)).
    { unfold DateFns.setMonth. f_equal.
      rewrite MakeDay_month_index.
      replace (12 * DateFns.getFullYear t + (DateFns.getMonth t + amount + 1))
        with (k + 1) by (unfold k; lia).
      apply last_of_month_index. }
    rewrite Eend.
    destruct (MakeDate_month_index k len (DateFns.TimeWithinDay t))
      as (Hy & Hm & Hdd & Ht); [fold len; lia | apply TimeWithinDay_range |].
    rewrite Hdd.
    destruct (Z.geb_spec (DateFns.getDate t) len).
    + rewrite Hy, Hm, Hdd, Ht. repeat split. lia.
    + rewrite Hy, Hm. unfold DateFns.setFullYear.
      rewrite (MakeDay_month_index (k / 12) (k mod 12)).
      replace (12 * (k / 12) + k mod 12) with k
        by (pose proof (Z.div_mod k 12 ltac:(lia)); lia).
      destruct (MakeDate_month_index k (DateFns.getDate t) (DateFns.TimeWithinDay t))
        as (Hy' & Hm' & Hd' & Ht'); [fold len; lia | apply TimeWithinDay_range |].
      rewrite Hy', Hm', Hd', Ht'. repeat split. lia.
Qed.

(** A local time is determined by its year, month, day and time of day. *)
Lemma time_fields_eq a b :
  DateFns.getFullYear a = DateFns.getFullYear b ->
  DateFns.getMonth a = DateFns.getMonth b ->
  DateFns.getDate a = DateFns.getDate b ->
  DateFns.TimeWithinDay a = DateFns.TimeWithinDay b ->
  a = b.
Proof.
  intros Hy Hm Hd Ht.
  rewrite <- (MakeDate_Day a), <- (MakeDate_Day b). rewrite Ht. f_equal.
  pose proof (MakeDay_fields (DateFns.Day a) (DateFns.getDate a)) as Fa.
  pose proof (MakeDay_fields (DateFns.Day b) (DateFns.getDate b)) as Fb.
  unfold DateFns.getFullYear, DateFns.getMonth, DateFns.getDate in *.
  rewrite Hy, Hm, Hd in Fa. lia.
Qed.

(** The grid depends on the month shown only. *)
Lemma calendar_rows_same_month fuel a b :
  DateFns.isSameMonth a b = true ->
  calendar_rows fuel a = calendar_rows fuel b.
Proof.
  intros Hsame. apply isSameMonth_iff in Hsame as [Hy Hm].
  assert (E : DateFns.startOfMonth a = DateFns.startOfMonth b).
  { rewrite !startOfMonth_spec. f_equal.
    destruct (first_of_month a) as (-> & _).
    destruct (first_of_month b) as (-> & _). now rewrite Hy, Hm. }
  unfold calendar_rows. now rewrite E.
Qed.

End NavFacts.

Import NavFacts.



